(** * Chrome extension analyzer: unpacking, manifest parsing and preview URLs

    A shallow embedding of the two screens of the repository:
    - [ChromeExtensionAnalyzer] (upload handler [handleFileUpload],
      [downloadFile]);
    - [ExtensionRunner] ([runExtension], [refreshExtension]).

    JavaScript values are modelled as the code has them: a byte buffer is a
    [list byte], a JS string is the list of its UTF-16 code units, the
    bitwise operators work on 32-bit two's complement integers, a rejected
    promise or a thrown exception is an absent result. *)

From Stdlib Require Import String Ascii.
From Stdlib Require Import Strings.Byte.
From Stdlib Require Import ZArith List Lia Bool Permutation.
Import Corelib.Init.Datatypes.
Import ListNotations.
Local Open Scope Z_scope.

(** ** JavaScript strings *)

(** A JS string is a sequence of UTF-16 code units. *)
Definition jsstring := list Z.

(** The code units of an ASCII literal of the source. *)
Fixpoint js (s : string) : jsstring :=
  match s with
  | EmptyString => []
  | String a r => Z.of_N (N_of_ascii a) :: js r
  end.

Fixpoint jsstring_eqb (a b : jsstring) : bool :=
  match a, b with
  | [], [] => true
  | x :: a', y :: b' => (x =? y) && jsstring_eqb a' b'
  | _, _ => false
  end.

(** [String.prototype.endsWith]: the last [length suffix] code units of [s]
    are [suffix]. *)
Definition endsWith (s suffix : jsstring) : bool :=
  (length suffix <=? length s)%nat &&
  jsstring_eqb (skipn (length s - length suffix) s) suffix.

(** Case folding of the [i] flag of a regular expression without the [u]
    flag: only the letters a-z and A-Z are identified with each other. *)
Definition fold_case (c : Z) : Z :=
  if (65 <=? c) && (c <=? 90) then c + 32 else c.

(** [/\.(json|js|html|css|txt|md)$/i.test(fileName)]: the name ends, up to
    the case of ASCII letters, in a dot followed by one of the alternatives. *)
Definition text_extensions : list string :=
  [".json"; ".js"; ".html"; ".css"; ".txt"; ".md"]%string.

Definition is_text_name (fileName : jsstring) : bool :=
  existsb (fun ext => endsWith (map fold_case fileName) (js ext)) text_extensions.

(** ** 32-bit integer operators *)

(** [ToInt32]: reduction modulo 2^32 into the signed range. *)
Definition to_int32 (z : Z) : Z := (z + 2 ^ 31) mod 2 ^ 32 - 2 ^ 31.

(** [a << n] *)
Definition js_shl (a n : Z) : Z := to_int32 (Z.shiftl (to_int32 a) (n mod 32)).

(** [a | b] *)
Definition js_or (a b : Z) : Z := to_int32 (Z.lor (to_int32 a) (to_int32 b)).

(** ** Byte buffers *)

Definition byte_val (b : byte) : Z := Z.of_N (Byte.to_N b).

(** [view[i]] on a [Uint8Array]; an index past the end reads [undefined],
    which the bitwise operators convert to 0. *)
Definition view_at (view : list byte) (i : nat) : Z :=
  match nth_error view i with
  | Some b => byte_val b
  | None => 0
  end.

(** [view[i] | (view[i+1] << 8) | (view[i+2] << 16) | (view[i+3] << 24)] *)
Definition read_length (view : list byte) (i : nat) : Z :=
  js_or (js_or (js_or (view_at view i)
                      (js_shl (view_at view (i + 1)) 8))
               (js_shl (view_at view (i + 2)) 16))
        (js_shl (view_at view (i + 3)) 24).

(** [ArrayBuffer.prototype.slice(begin)] with no [end]: a negative [begin]
    counts back from the end of the buffer, and the start is clamped to
    [0 .. byteLength]. *)
Definition slice_start (len begin : Z) : Z :=
  if begin <? 0 then Z.max (len + begin) 0 else Z.min begin len.

Definition ArrayBuffer_slice (buf : list byte) (begin : Z) : list byte :=
  skipn (Z.to_nat (slice_start (Z.of_nat (length buf)) begin)) buf.

(** The [.crx] branch of [handleFileUpload]. *)
Definition headerSize : Z := 16.

Definition publicKeyLength (view : list byte) : Z := read_length view 12.
Definition signatureLength (view : list byte) : Z := read_length view 16.

Definition zipStartOffset (view : list byte) : Z :=
  headerSize + publicKeyLength view + signatureLength view.

Definition crx_zipData (arrayBuffer : list byte) : list byte :=
  ArrayBuffer_slice arrayBuffer (zipStartOffset arrayBuffer).

(** Bytes given by their numeric values. *)
Definition byte_of (z : Z) : byte :=
  match Byte.of_N (Z.to_N z) with
  | Some b => b
  | None => x00
  end.

Definition bytes (l : list Z) : list byte := map byte_of l.

(** [a & b] and [a >> n] *)
Definition js_and (a b : Z) : Z := to_int32 (Z.land (to_int32 a) (to_int32 b)).
Definition js_shr (a n : Z) : Z := Z.shiftr (to_int32 a) (n mod 32).

(** ** Text decoding of an archive member

    [zipEntry.async('text')] decodes the member's bytes with the archive
    library's UTF-8 decoder ([buf2string] of its [utf8] module, the one used
    in a browser).  The library is imported by the source and is not part of
    the repository; the decoder is written out after the library's
    algorithm. *)

(** The table [_utf8len]: length of a sequence by its first byte. *)
Definition utf8len (c : Z) : Z :=
  if c =? 254 then 1
  else if 252 <=? c then 6
  else if 248 <=? c then 5
  else if 240 <=? c then 4
  else if 224 <=? c then 3
  else if 192 <=? c then 2
  else 1.

(** The inner loop [while (c_len > 1 && i < len)] joining continuation
    bytes; returns the joined value, what remains of [c_len] and the rest of
    the buffer. *)
Fixpoint utf8_join (c c_len : Z) (buf : list byte) : Z * Z * list byte :=
  match buf with
  | [] => (c, c_len, [])
  | b :: rest =>
      if 1 <? c_len
      then utf8_join (js_or (js_shl c 6) (js_and (byte_val b) 63)) (c_len - 1) rest
      else (c, c_len, buf)
  end.

Fixpoint buf2string_loop (fuel : nat) (buf : list byte) : jsstring :=
  match fuel with
  | O => []
  | S fuel' =>
      match buf with
      | [] => []
      | b :: rest =>
          let c := byte_val b in
          if c <? 128 then c :: buf2string_loop fuel' rest
          else
            let c_len := utf8len c in
            if 4 <? c_len
            then 65533 :: buf2string_loop fuel' (skipn (Z.to_nat (c_len - 1)) rest)
            else
              let mask := if c_len =? 2 then 31 else if c_len =? 3 then 15 else 7 in
              match utf8_join (js_and c mask) c_len rest with
              | (c', c_len', rest') =>
                  if 1 <? c_len' then 65533 :: buf2string_loop fuel' rest'
                  else if c' <? 65536 then c' :: buf2string_loop fuel' rest'
                  else
                    let d := c' - 65536 in
                    js_or 55296 (js_and (js_shr d 10) 1023)
                      :: js_or 56320 (js_and d 1023)
                      :: buf2string_loop fuel' rest'
              end
      end
  end.

(** Every iteration consumes at least one byte, so [length buf] iterations
    are enough (see [buf2string_loop_fuel]). *)
Definition buf2string (buf : list byte) : jsstring :=
  buf2string_loop (length buf) buf.

(** ** JSON values and [JSON.parse] *)

(** A number literal is kept exactly, as [mantissa * 10 ^ exponent]; the
    rounding to a binary64 value is not modelled. *)
#[local] Set Warnings "-register-all".
Inductive json :=
| JNull
| JBool (b : bool)
| JNumber (mantissa exponent : Z)
| JString (s : jsstring)
| JArray (items : list json)
| JObject (props : list (jsstring * json)).

Inductive parsed (A : Type) :=
| Parsed (a : A) (rest : jsstring)
| SyntaxError
| OutOfFuel.
Arguments Parsed {A} a rest.
Arguments SyntaxError {A}.
Arguments OutOfFuel {A}.

Definition is_ws (c : Z) : bool :=
  (c =? 9) || (c =? 10) || (c =? 13) || (c =? 32).

Fixpoint skip_ws (s : jsstring) : jsstring :=
  match s with
  | c :: r => if is_ws c then skip_ws r else s
  | [] => []
  end.

Definition is_digit (c : Z) : bool := (48 <=? c) && (c <=? 57).

Definition hex_digit (c : Z) : option Z :=
  if is_digit c then Some (c - 48)
  else if (97 <=? c) && (c <=? 102) then Some (c - 87)
  else if (65 <=? c) && (c <=? 70) then Some (c - 55)
  else None.

Definition hex4 (a b c d : Z) : option Z :=
  match hex_digit a, hex_digit b, hex_digit c, hex_digit d with
  | Some a, Some b, Some c, Some d => Some (((a * 16 + b) * 16 + c) * 16 + d)
  | _, _, _, _ => None
  end.

(** The single-character escapes: quote, backslash, slash, b, f, n, r, t. *)
Definition escape (e : Z) : option Z :=
  if e =? 34 then Some 34
  else if e =? 92 then Some 92
  else if e =? 47 then Some 47
  else if e =? 98 then Some 8
  else if e =? 102 then Some 12
  else if e =? 110 then Some 10
  else if e =? 114 then Some 13
  else if e =? 116 then Some 9
  else None.

(** The characters of a string literal, after its opening quote. *)
Fixpoint parse_chars (acc : jsstring) (s : jsstring) {struct s} : parsed jsstring :=
  match s with
  | [] => SyntaxError
  | c :: r =>
      if c =? 34 then Parsed (rev acc) r
      else if c =? 92 then
        match r with
        | [] => SyntaxError
        | e :: r' =>
            if e =? 117 then
              match r' with
              | h1 :: h2 :: h3 :: h4 :: r'' =>
                  match hex4 h1 h2 h3 h4 with
                  | Some u => parse_chars (u :: acc) r''
                  | None => SyntaxError
                  end
              | _ => SyntaxError
              end
            else
              match escape e with
              | Some u => parse_chars (u :: acc) r'
              | None => SyntaxError
              end
        end
      else if c <? 32 then SyntaxError
      else parse_chars (c :: acc) r
  end.

(** A run of decimal digits: their value, their number, and the rest. *)
Fixpoint digits (acc : Z) (n : Z) (s : jsstring) : Z * Z * jsstring :=
  match s with
  | c :: r => if is_digit c then digits (acc * 10 + (c - 48)) (n + 1) r else (acc, n, s)
  | [] => (acc, n, [])
  end.

(** A number literal: an optional minus sign; an integer part that is
    either 0 or starts with a non-zero digit; optionally a dot and at least
    one digit; optionally e or E, a sign, and at least one digit. *)
Definition parse_number (s : jsstring) : parsed json :=
  let '(neg, s1) :=
    match s with
    | c :: r => if c =? 45 then (true, r) else (false, s)
    | [] => (false, s)
    end in
  match s1 with
  | [] => SyntaxError
  | c :: r =>
      if negb (is_digit c) then SyntaxError
      else
        let '(int, _, s2) := if c =? 48 then (0, 1, r) else digits 0 0 s1 in
        let frac :=
          match s2 with
          | p :: r2 =>
              if p =? 46 then
                match digits int 0 r2 with
                | (m, n, s3) => if n =? 0 then None else Some (m, n, s3)
                end
              else Some (int, 0, s2)
          | [] => Some (int, 0, s2)
          end in
        match frac with
        | None => SyntaxError
        | Some (m, nfrac, s3) =>
            let m := if neg then - m else m in
            match s3 with
            | e :: r3 =>
                if (e =? 101) || (e =? 69) then
                  let '(eneg, s4) :=
                    match r3 with
                    | g :: r4 =>
                        if g =? 45 then (true, r4)
                        else if g =? 43 then (false, r4)
                        else (false, r3)
                    | [] => (false, r3)
                    end in
                  match digits 0 0 s4 with
                  | (x, n, s5) =>
                      if n =? 0 then SyntaxError
                      else Parsed (JNumber m ((if eneg then - x else x) - nfrac)) s5
                  end
                else Parsed (JNumber m (- nfrac)) s3
            | [] => Parsed (JNumber m (- nfrac)) s3
            end
        end
  end.

(** [prefix] followed by the rest, for the literals [true], [false], [null]. *)
Fixpoint strip_prefix (prefix s : jsstring) : option jsstring :=
  match prefix, s with
  | [], _ => Some s
  | p :: prefix', c :: r => if p =? c then strip_prefix prefix' r else None
  | _ :: _, [] => None
  end.

(** Defining a property of an object: an existing key keeps its place and
    takes the new value, a new key is added at the end. *)
Fixpoint obj_set {A : Type} (k : jsstring) (v : A) (o : list (jsstring * A))
  : list (jsstring * A) :=
  match o with
  | [] => [(k, v)]
  | (k', v') :: o' =>
      if jsstring_eqb k' k then (k, v) :: o' else (k', v') :: obj_set k v o'
  end.

Fixpoint obj_get {A : Type} (k : jsstring) (o : list (jsstring * A)) : option A :=
  match o with
  | [] => None
  | (k', v) :: o' => if jsstring_eqb k' k then Some v else obj_get k o'
  end.

Fixpoint parse_value (fuel : nat) (s : jsstring) {struct fuel} : parsed json :=
  match fuel with
  | O => OutOfFuel
  | S fuel' =>
      match skip_ws s with
      | [] => SyntaxError
      | c :: r =>
          if c =? 123 then
            match skip_ws r with
            | [] => SyntaxError
            | c' :: r' =>
                if c' =? 125 then Parsed (JObject []) r'
                else parse_members fuel' [] (c' :: r')
            end
          else if c =? 91 then
            match skip_ws r with
            | [] => SyntaxError
            | c' :: r' =>
                if c' =? 93 then Parsed (JArray []) r'
                else parse_elements fuel' [] (c' :: r')
            end
          else if c =? 34 then
            match parse_chars [] r with
            | Parsed str rest => Parsed (JString str) rest
            | SyntaxError => SyntaxError
            | OutOfFuel => OutOfFuel
            end
          else if c =? 116 then
            match strip_prefix (js "rue") r with
            | Some rest => Parsed (JBool true) rest
            | None => SyntaxError
            end
          else if c =? 102 then
            match strip_prefix (js "alse") r with
            | Some rest => Parsed (JBool false) rest
            | None => SyntaxError
            end
          else if c =? 110 then
            match strip_prefix (js "ull") r with
            | Some rest => Parsed JNull rest
            | None => SyntaxError
            end
          else parse_number (c :: r)
      end
  end

with parse_elements (fuel : nat) (acc : list json) (s : jsstring) {struct fuel}
  : parsed json :=
  match fuel with
  | O => OutOfFuel
  | S fuel' =>
      match parse_value fuel' s with
      | Parsed v rest =>
          match skip_ws rest with
          | [] => SyntaxError
          | c :: r =>
              if c =? 44 then parse_elements fuel' (v :: acc) r
              else if c =? 93 then Parsed (JArray (rev (v :: acc))) r
              else SyntaxError
          end
      | SyntaxError => SyntaxError
      | OutOfFuel => OutOfFuel
      end
  end

with parse_members (fuel : nat) (acc : list (jsstring * json)) (s : jsstring)
  {struct fuel} : parsed json :=
  match fuel with
  | O => OutOfFuel
  | S fuel' =>
      match skip_ws s with
      | [] => SyntaxError
      | q :: r =>
          if negb (q =? 34) then SyntaxError
          else
            match parse_chars [] r with
            | Parsed key rest =>
                match skip_ws rest with
                | [] => SyntaxError
                | c :: r1 =>
                    if negb (c =? 58) then SyntaxError
                    else
                      match parse_value fuel' r1 with
                      | Parsed v rest2 =>
                          match skip_ws rest2 with
                          | [] => SyntaxError
                          | d :: r2 =>
                              if d =? 44 then parse_members fuel' (obj_set key v acc) r2
                              else if d =? 125 then Parsed (JObject (obj_set key v acc)) r2
                              else SyntaxError
                          end
                      | SyntaxError => SyntaxError
                      | OutOfFuel => OutOfFuel
                      end
                end
            | SyntaxError => SyntaxError
            | OutOfFuel => OutOfFuel
            end
      end
  end.

(** Fuel that no text exhausts (see [JSON_parse_fuel]). *)
Definition json_fuel (s : jsstring) : nat := (2 * length s + 2)%nat.

(** [JSON.parse(text)]: [None] when it throws a [SyntaxError]. *)
Definition JSON_parse (text : jsstring) : option json :=
  match parse_value (json_fuel text) text with
  | Parsed v rest =>
      match skip_ws rest with
      | [] => Some v
      | _ :: _ => None
      end
  | SyntaxError => None
  | OutOfFuel => None
  end.

(** ** The analyzer screen *)

(** [content: string | ArrayBuffer] *)
Inductive Content :=
| Text (s : jsstring)
| Binary (b : list byte).

Record ExtensionFile := {
  name : jsstring;
  size : Z;
  content : Content;
  isText : bool
}.

(** The [File] picked in the upload control: its name and what
    [file.arrayBuffer()] resolves to. *)
Record File := {
  file_name : jsstring;
  file_bytes : list byte
}.

(** A member of a loaded archive: the [dir] flag and the stored bytes that
    [zipEntry.async] decompresses on demand; [None] when that promise is
    rejected (a member whose compressed data is corrupt). *)
Record ZipEntry := {
  dir : bool;
  data : option (list byte)
}.

(** The three toasts of the screen, in the order of the source: the
    validation message ("Archivo no valido"), the success message with the
    number of extracted files, and the generic processing error. *)
Inductive Toast :=
| ArchivoNoValido
| ExtensionExtraida (n : nat)
| ErrorProcesar.

Inductive Event :=
| EvLoadAsync (zipData : list byte)
| EvErrorParsingManifest
| EvErrorProcessingFile
| EvToast (t : Toast).

(** The component state: [files], [manifest] ([JNull] is [null]),
    [selectedFile], [isProcessing]. *)
Record AnalyzerState := {
  files : list ExtensionFile;
  manifest : json;
  selectedFile : option ExtensionFile;
  isProcessing : bool
}.

Definition initialState : AnalyzerState :=
  {| files := []; manifest := JNull; selectedFile := None; isProcessing := false |}.

(** The body of a [try] block: the events it has caused so far and either
    its value or [None] once an exception was thrown. *)
Definition Try (A : Type) : Type := list Event * option A.

Definition ret {A : Type} (a : A) : Try A := ([], Some a).
Definition throw {A : Type} : Try A := ([], None).
Definition emit (e : Event) : Try unit := ([e], Some tt).

Definition bind {A B : Type} (m : Try A) (f : A -> Try B) : Try B :=
  match m with
  | (log, None) => (log, None)
  | (log, Some a) =>
      match f a with
      | (log', r) => (log ++ log', r)
      end
  end.

Notation "x <- m ;; k" := (bind m (fun x => k))
  (at level 61, m at next level, right associativity).
Notation "m ;;; k" := (bind m (fun _ => k))
  (at level 61, right associativity).

(** An awaited promise: its value, or the rejection thrown. *)
Definition await {A : Type} (p : option A) : Try A :=
  match p with
  | Some a => ret a
  | None => throw
  end.

(** [x.length || x.byteLength || 0]: a string has a [length] and no
    [byteLength], an [ArrayBuffer] the converse; [undefined] and 0 are
    falsy. *)
Definition content_length (c : Content) : option Z :=
  match c with
  | Text s => Some (Z.of_nat (length s))
  | Binary _ => None
  end.

Definition content_byteLength (c : Content) : option Z :=
  match c with
  | Text _ => None
  | Binary b => Some (Z.of_nat (length b))
  end.

Definition or_else (a b : option Z) : option Z :=
  match a with
  | Some n => if n =? 0 then b else a
  | None => b
  end.

Definition content_size (c : Content) : Z :=
  match or_else (or_else (content_length c) (content_byteLength c)) (Some 0) with
  | Some n => n
  | None => 0
  end.

Section Analyzer.

(** [new JSZip().loadAsync(zipData)] followed by
    [Object.entries(loadedZip.files)]: the members in enumeration order,
    or [None] when the promise is rejected.  The archive library is a
    dependency of the repository; the handler is stated over any
    loader. *)
Variable loadAsync : list byte -> option (list (jsstring * ZipEntry)).

(** One iteration of the [for ... of Object.entries(loadedZip.files)]
    loop, on the pair of accumulators [extractedFiles], [manifestData]. *)
Definition extract_entry (acc : list ExtensionFile * json)
    (entry : jsstring * ZipEntry) : Try (list ExtensionFile * json) :=
  let '(extractedFiles, manifestData) := acc in
  let '(fileName, zipEntry) := entry in
  if dir zipEntry then ret acc
  else
    let isText := is_text_name fileName in
    raw <- await (data zipEntry) ;;
    let content := if isText then Text (buf2string raw) else Binary raw in
    let extractedFiles :=
      extractedFiles ++
        [ {| name := fileName; size := content_size content;
             content := content; isText := isText |} ] in
    if jsstring_eqb fileName (js "manifest.json") && isText then
      match content with
      | Text text =>
          match JSON_parse text with
          | Some v => ret (extractedFiles, v)
          | None => emit EvErrorParsingManifest ;;; ret (extractedFiles, manifestData)
          end
      | Binary _ => ret (extractedFiles, manifestData)
      end
    else ret (extractedFiles, manifestData).

Fixpoint extract_entries (entries : list (jsstring * ZipEntry))
    (acc : list ExtensionFile * json) : Try (list ExtensionFile * json) :=
  match entries with
  | [] => ret acc
  | entry :: entries' =>
      acc' <- extract_entry acc entry ;;
      extract_entries entries' acc'
  end.

(** The archive bytes handed to the library. *)
Definition zipData_of (file : File) : list byte :=
  if endsWith (file_name file) (js ".crx")
  then crx_zipData (file_bytes file)
  else file_bytes file.

(** The [try] block of [handleFileUpload], up to the state updates. *)
Definition unpack (file : File) : Try (list ExtensionFile * json) :=
  let zipData := zipData_of file in
  emit (EvLoadAsync zipData) ;;;
  loadedZip <- await (loadAsync zipData) ;;
  extract_entries loadedZip ([], JNull).

Definition accepted_name (fileName : jsstring) : bool :=
  endsWith fileName (js ".crx") || endsWith fileName (js ".zip").

(** [handleFileUpload]: the state after the handler has run and the
    events it caused.  [selected] is [event.target.files?.[0]]. *)
Definition handleFileUpload (st : AnalyzerState) (selected : option File)
  : AnalyzerState * list Event :=
  match selected with
  | None => (st, [])
  | Some file =>
      if negb (endsWith (file_name file) (js ".crx"))
         && negb (endsWith (file_name file) (js ".zip"))
      then (st, [EvToast ArchivoNoValido])
      else
        match unpack file with
        | (log, Some (extractedFiles, manifestData)) =>
            ({| files := extractedFiles;
                manifest := manifestData;
                selectedFile := None;
                isProcessing := false |},
             log ++ [EvToast (ExtensionExtraida (length extractedFiles))])
        | (log, None) =>
            ({| files := files st;
                manifest := manifest st;
                selectedFile := selectedFile st;
                isProcessing := false |},
             log ++ [EvErrorProcessingFile; EvToast ErrorProcesar])
        end
  end.

(** The unpack operation succeeds when the [try] block reaches its end. *)
Definition unpack_succeeds (file : File) : bool :=
  match snd (unpack file) with
  | Some _ => true
  | None => false
  end.

End Analyzer.

(** ** A reference loader for stored archives

    To run the handler on concrete uploads, a reader for the part of the
    ZIP container that needs no decompression: members stored with method 0,
    no ZIP64 records, no encryption, names taken as they are.  It follows the
    order of work of the library (end-of-central-directory record found from
    the end, data prepended to the archive tolerated, central directory, then
    local headers) and, as the library does by default, does not check the
    CRC fields.  [stored_zip] writes such an archive. *)
Module StoredZip.

Definition u16 (buf : list byte) (i : nat) : Z :=
  view_at buf i + 256 * view_at buf (i + 1).

Definition u32 (buf : list byte) (i : nat) : Z :=
  u16 buf i + 65536 * u16 buf (i + 2).

Definition has_signature (buf : list byte) (i : nat) (c d : Z) : bool :=
  (i + 4 <=? length buf)%nat
  && (view_at buf i =? 80) && (view_at buf (i + 1) =? 75)
  && (view_at buf (i + 2) =? c) && (view_at buf (i + 3) =? d).

Definition sub (buf : list byte) (i n : nat) : option (list byte) :=
  if (i + n <=? length buf)%nat then Some (firstn n (skipn i buf)) else None.

(** The last position, not after [i], of the end-of-central-directory
    signature. *)
Fixpoint last_end_signature (buf : list byte) (i : nat) : option nat :=
  if has_signature buf i 5 6 then Some i
  else
    match i with
    | O => None
    | S i' => last_end_signature buf i'
    end.

Record CentralEntry := {
  ce_name : list byte;
  ce_method : Z;
  ce_flags : Z;
  ce_compressedSize : Z;
  ce_madeBy : Z;
  ce_externalAttributes : Z;
  ce_localHeaderOffset : Z
}.

(** The central file headers from [pos] on, as long as the signature
    matches. *)
Fixpoint read_central (fuel : nat) (buf : list byte) (pos : nat)
  : option (list CentralEntry) :=
  match fuel with
  | O => None
  | S fuel' =>
      if has_signature buf pos 1 2 then
        let nameLen := Z.to_nat (u16 buf (pos + 28)) in
        let extraLen := Z.to_nat (u16 buf (pos + 30)) in
        let commentLen := Z.to_nat (u16 buf (pos + 32)) in
        match sub buf (pos + 46) (nameLen + extraLen + commentLen) with
        | None => None
        | Some fields =>
            match read_central fuel' buf (pos + 46 + nameLen + extraLen + commentLen) with
            | None => None
            | Some entries =>
                Some ({| ce_name := firstn nameLen fields;
                         ce_method := u16 buf (pos + 10);
                         ce_flags := u16 buf (pos + 8);
                         ce_compressedSize := u32 buf (pos + 20);
                         ce_madeBy := u16 buf (pos + 4);
                         ce_externalAttributes := u32 buf (pos + 38);
                         ce_localHeaderOffset := u32 buf (pos + 42) |} :: entries)
            end
        end
      else Some []
  end.

Definition is_dir (e : CentralEntry) (fileName : jsstring) : bool :=
  (if ce_madeBy e / 256 =? 0
   then negb (Z.land (ce_externalAttributes e) 16 =? 0)
   else if ce_madeBy e / 256 =? 3
   then negb (Z.land (Z.shiftr (ce_externalAttributes e) 16) 16384 =? 0)
   else false)
  || endsWith fileName (js "/").

(** The local part of one member: its name and its stored bytes. *)
Definition read_local (buf : list byte) (zero : nat) (e : CentralEntry)
  : option (jsstring * ZipEntry) :=
  let pos := (zero + Z.to_nat (ce_localHeaderOffset e))%nat in
  if negb (has_signature buf pos 3 4) then None
  else if negb (ce_method e =? 0) then None
  else if negb (Z.land (ce_flags e) 1 =? 0) then None
  else
    let nameLen := Z.to_nat (u16 buf (pos + 26)) in
    let extraLen := Z.to_nat (u16 buf (pos + 28)) in
    match sub buf (pos + 30 + nameLen + extraLen) (Z.to_nat (ce_compressedSize e)) with
    | None => None
    | Some raw =>
        let fileName := buf2string (ce_name e) in
        let isDir := is_dir e fileName in
        let fileName :=
          if isDir && negb (endsWith fileName (js "/"))
          then fileName ++ js "/" else fileName in
        Some (fileName, {| dir := isDir; data := Some raw |})
    end.

Fixpoint read_locals (buf : list byte) (zero : nat) (entries : list CentralEntry)
    (files : list (jsstring * ZipEntry)) : option (list (jsstring * ZipEntry)) :=
  match entries with
  | [] => Some files
  | e :: entries' =>
      match read_local buf zero e with
      | None => None
      | Some (fileName, zipEntry) =>
          read_locals buf zero entries' (obj_set fileName zipEntry files)
      end
  end.

Definition loadAsync (buf : list byte) : option (list (jsstring * ZipEntry)) :=
  match last_end_signature buf (length buf - 4) with
  | None => None
  | Some eocd =>
      match sub buf (eocd + 22) (Z.to_nat (u16 buf (eocd + 20))) with
      | None => None
      | Some _ =>
          let records := u16 buf (eocd + 10) in
          let centralDirSize := u32 buf (eocd + 12) in
          let centralDirOffset := u32 buf (eocd + 16) in
          if (records =? 65535) || (centralDirSize =? 4294967295)
             || (centralDirOffset =? 4294967295) then None
          else
            let extraBytes := Z.of_nat eocd - (centralDirOffset + centralDirSize) in
            if extraBytes <? 0 then None
            else
              let zero :=
                if (0 <? extraBytes) && negb (has_signature buf eocd 1 2)
                then Z.to_nat extraBytes else O in
              match read_central (length buf) buf (zero + Z.to_nat centralDirOffset) with
              | None => None
              | Some entries =>
                  if negb (records =? 0) && (length entries =? 0)%nat then None
                  else read_locals buf zero entries []
              end
      end
  end.

(** *** Writing a stored archive *)

Definition le16 (z : Z) : list byte := bytes [z mod 256; z / 256 mod 256].
Definition le32 (z : Z) : list byte := le16 (z mod 65536) ++ le16 (z / 65536).

Definition name_bytes (fileName : jsstring) : list byte := bytes fileName.

Definition local_record (fileName : jsstring) (raw : list byte) : list byte :=
  bytes [80; 75; 3; 4] ++ le16 20 ++ le16 0 ++ le16 0 ++ le16 0 ++ le16 33
    ++ le32 0 ++ le32 (Z.of_nat (length raw)) ++ le32 (Z.of_nat (length raw))
    ++ le16 (Z.of_nat (length fileName)) ++ le16 0
    ++ name_bytes fileName ++ raw.

Definition central_record (fileName : jsstring) (raw : list byte) (offset : Z)
  : list byte :=
  bytes [80; 75; 1; 2] ++ le16 20 ++ le16 20 ++ le16 0 ++ le16 0 ++ le16 0 ++ le16 33
    ++ le32 0 ++ le32 (Z.of_nat (length raw)) ++ le32 (Z.of_nat (length raw))
    ++ le16 (Z.of_nat (length fileName)) ++ le16 0 ++ le16 0 ++ le16 0 ++ le16 0
    ++ le32 (if endsWith fileName (js "/") then 16 else 0)
    ++ le32 offset ++ name_bytes fileName.

Fixpoint records (members : list (jsstring * list byte)) (offset : Z)
  : list byte * list byte :=
  match members with
  | [] => ([], [])
  | (fileName, raw) :: members' =>
      let l := local_record fileName raw in
      match records members' (offset + Z.of_nat (length l)) with
      | (locals, centrals) => (l ++ locals, central_record fileName raw offset ++ centrals)
      end
  end.

Definition stored_zip (members : list (jsstring * list byte)) : list byte :=
  match records members 0 with
  | (locals, centrals) =>
      locals ++ centrals
        ++ bytes [80; 75; 5; 6] ++ le16 0 ++ le16 0
        ++ le16 (Z.of_nat (length members)) ++ le16 (Z.of_nat (length members))
        ++ le32 (Z.of_nat (length centrals)) ++ le32 (Z.of_nat (length locals))
        ++ le16 0
  end.

End StoredZip.

(** The bytes of an ASCII text. *)
Definition ascii_bytes (s : string) : list byte := bytes (js s).

(** ** Object URLs

    [URL.createObjectURL] registers a blob under a fresh URL, which stays
    live until [URL.revokeObjectURL] is called on it.  URLs are numbered in
    the order of their creation. *)
Inductive Blob :=
| FileBlob (c : Content) (isText : bool)
| HtmlBlob (c : Content)
| ManifestReport (manifest : json).

Record UrlStore := {
  live : list (nat * Blob);
  next_url : nat
}.

Definition emptyStore : UrlStore := {| live := []; next_url := O |}.

Definition createObjectURL (blob : Blob) (w : UrlStore) : nat * UrlStore :=
  (next_url w,
   {| live := live w ++ [(next_url w, blob)]; next_url := S (next_url w) |}).

Definition revokeObjectURL (url : nat) (w : UrlStore) : UrlStore :=
  {| live := filter (fun e => negb (Nat.eqb (fst e) url)) (live w);
     next_url := next_url w |}.

(** [downloadFile] of the analyzer screen: the URL is created, clicked
    through a temporary anchor, and revoked. *)
Definition downloadFile (file : ExtensionFile) (w : UrlStore) : UrlStore :=
  let blob := FileBlob (content file) (isText file) in
  let '(url, w) := createObjectURL blob w in
  revokeObjectURL url w.

(** ** The runner screen *)
Module Runner.

Record ExtensionData := {
  manifest : json;
  files : list ExtensionFile
}.

Inductive Toast :=
| ExtensionCargada
| MostrandoInformacion
| ErrorEjecutar.

(** [extensionUrl] is the empty string, modelled by [None], until a
    preview was created. *)
Record State := {
  extensionData : option ExtensionData;
  isRunning : bool;
  extensionUrl : option nat
}.

Definition is_html (file : ExtensionFile) : bool :=
  endsWith (name file) (js ".html") && isText file.

(** [runExtension].  Without an HTML member the report page reads
    [extensionData.manifest.name], which throws on a [null] manifest. *)
Definition runExtension (st : State) (w : UrlStore)
  : State * UrlStore * list Toast :=
  match extensionData st with
  | None => (st, w, [])
  | Some d =>
      match find is_html (files d) with
      | Some htmlFile =>
          let '(url, w) := createObjectURL (HtmlBlob (content htmlFile)) w in
          ({| extensionData := extensionData st; isRunning := false;
              extensionUrl := Some url |}, w, [ExtensionCargada])
      | None =>
          match manifest d with
          | JNull =>
              ({| extensionData := extensionData st; isRunning := false;
                  extensionUrl := extensionUrl st |}, w, [ErrorEjecutar])
          | m =>
              let '(url, w) := createObjectURL (ManifestReport m) w in
              ({| extensionData := extensionData st; isRunning := false;
                  extensionUrl := Some url |}, w, [MostrandoInformacion])
          end
      end
  end.

(** [refreshExtension]: the current URL, if any, is revoked, then
    [runExtension] is called. *)
Definition refreshExtension (st : State) (w : UrlStore)
  : State * UrlStore * list Toast :=
  let w :=
    match extensionUrl st with
    | Some url => revokeObjectURL url w
    | None => w
    end in
  runExtension st w.

(** The two buttons of the screen ("Ejecutar", "Recargar"). *)
Inductive Click := Ejecutar | Recargar.

Definition click (c : Click) (sw : State * UrlStore) : State * UrlStore :=
  match c with
  | Ejecutar => fst (runExtension (fst sw) (snd sw))
  | Recargar => fst (refreshExtension (fst sw) (snd sw))
  end.

Definition clicks (cs : list Click) (sw : State * UrlStore) : State * UrlStore :=
  fold_left (fun sw c => click c sw) cs sw.

(** The screen once the extension data has arrived through the
    navigation state. *)
Definition loaded (d : ExtensionData) : State :=
  {| extensionData := Some d; isRunning := false; extensionUrl := None |}.

End Runner.

(** ** Specification-side vocabulary *)

(** The unsigned value of four consecutive bytes, least significant first. *)
Definition le32u (view : list byte) (i : nat) : Z :=
  view_at view i + 2 ^ 8 * view_at view (i + 1)
  + 2 ^ 16 * view_at view (i + 2) + 2 ^ 24 * view_at view (i + 3).

(** An offset lands inside a buffer when it designates one of its bytes. *)
Definition inside (buf : list byte) (offset : Z) : Prop :=
  0 <= offset < Z.of_nat (length buf).

(** The non-directory members of a loaded archive. *)
Definition members (entries : list (jsstring * ZipEntry))
  : list (jsstring * ZipEntry) :=
  filter (fun e => negb (dir (snd e))) entries.

(** A member can be read when it is a directory (never read) or when its
    data decompresses. *)
Definition readable (entry : jsstring * ZipEntry) : bool :=
  dir (snd entry) ||
  match data (snd entry) with
  | Some _ => true
  | None => false
  end.

(** The entry that the loop builds from a member's name and bytes. *)
Definition member_content (fileName : jsstring) (raw : list byte) : Content :=
  if is_text_name fileName then Text (buf2string raw) else Binary raw.

Definition member_file (fileName : jsstring) (raw : list byte) : ExtensionFile :=
  {| name := fileName;
     size := content_size (member_content fileName raw);
     content := member_content fileName raw;
     isText := is_text_name fileName |}.

(** What the loop does to [manifestData] at a member. *)
Definition manifest_step (manifestData : json) (fileName : jsstring)
    (raw : list byte) : list Event * json :=
  if jsstring_eqb fileName (js "manifest.json") then
    match JSON_parse (buf2string raw) with
    | Some v => ([], v)
    | None => ([EvErrorParsingManifest], manifestData)
    end
  else ([], manifestData).

(** An extracted entry agrees with the member it was unpacked from: same
    path; a binary entry carries the member's bytes and their number; a text
    entry carries the decoding of the member's bytes. *)
Definition unpacked_from (f : ExtensionFile) (entry : jsstring * ZipEntry) : Prop :=
  name f = fst entry /\
  isText f = is_text_name (fst entry) /\
  exists raw, data (snd entry) = Some raw /\
    if is_text_name (fst entry)
    then content f = Text (buf2string raw)
    else content f = Binary raw /\ size f = Z.of_nat (length raw).

(** A member that cannot give a manifest descriptor: a directory, a member
    under another name, or one whose text is not JSON. *)
Definition no_descriptor (entry : jsstring * ZipEntry) : Prop :=
  dir (snd entry) = true \/
  fst entry <> js "manifest.json" \/
  forall raw, data (snd entry) = Some raw -> JSON_parse (buf2string raw) = None.

Definition toasts_of (events : list Event) : list Toast :=
  flat_map (fun e => match e with EvToast t => [t] | _ => [] end) events.

Definition loads_of (events : list Event) : list (list byte) :=
  flat_map (fun e => match e with EvLoadAsync z => [z] | _ => [] end) events.

Definition stored (raw : list byte) : ZipEntry :=
  {| dir := false; data := Some raw |}.

(** ** Concrete uploads *)

(** JSON texts are written with single quotes standing for the double
    quotes of the format. *)
Definition json_text (s : string) : jsstring :=
  map (fun c => if c =? 39 then 34 else c) (js s).

Definition manifest_json : jsstring :=
  json_text "{'name':'Test','version':'1.0','manifest_version':3,'permissions':['storage']}".

Definition popup_html : jsstring := js "<html></html>".

(** The archive of the example: its two members, as a loader returns them. *)
Definition example_archive : list (jsstring * ZipEntry) :=
  [ (js "manifest.json", stored (bytes manifest_json));
    (js "popup.html", stored (bytes popup_html)) ].

Definition example_descriptor : json :=
  JObject
    [ (js "name", JString (js "Test"));
      (js "version", JString (js "1.0"));
      (js "manifest_version", JNumber 3 0);
      (js "permissions", JArray [JString (js "storage")]) ].

(** The same archive as the bytes of a stored ZIP file, uploaded under a
    [.zip] name. *)
Definition example_zip : list byte :=
  StoredZip.stored_zip
    [ (js "manifest.json", bytes manifest_json);
      (js "popup.html", bytes popup_html) ].

Definition example_upload : File :=
  {| file_name := js "extension.zip"; file_bytes := example_zip |}.

(** A signed package as the handler expects it: 16 bytes of header, lengths
    6 and 3 in bytes 12-15 and 16-19, the rest of the key and signature
    bytes, then the archive at offset 16 + 6 + 3 = 25. *)
Definition example_crx_bytes : list byte :=
  bytes [67; 114; 50; 52; 2; 0; 0; 0; 0; 0; 0; 0; 6; 0; 0; 0; 3; 0; 0; 0;
         1; 2; 3; 4; 5] ++ example_zip.

Definition example_crx : File :=
  {| file_name := js "extension.crx"; file_bytes := example_crx_bytes |}.

(** Twenty zero bytes under a [.crx] name: both lengths are 0 and the
    archive start, 16, designates a byte of the buffer. *)
Definition short_crx : File :=
  {| file_name := js "short.crx"; file_bytes := bytes (repeat 0 20) |}.

(** A header whose first length field is negative, followed by an archive:
    the start is [- length example_zip], before the buffer, and [slice]
    counts it back from the end. *)
Definition negative_crx_bytes : list byte :=
  bytes (repeat 0 12)
    ++ StoredZip.le32 (2 ^ 32 - 16 - Z.of_nat (length example_zip))
    ++ bytes (repeat 0 4) ++ example_zip.

Definition negative_crx : File :=
  {| file_name := js "negative.crx"; file_bytes := negative_crx_bytes |}.

(** A header whose lengths add up to 1016, past the end of the buffer. *)
Definition overlong_crx : File :=
  {| file_name := js "overlong.crx";
     file_bytes := bytes (repeat 0 12 ++ [232; 3; 0; 0; 0; 0; 0; 0]) ++ example_zip |}.

(** Two buffers with the same last byte; the start is 19 in the first and
    -1 in the second, so both give the one-byte payload [0]. *)
Definition start_19 : File :=
  {| file_name := js "a.crx"; file_bytes := bytes (repeat 0 12 ++ [3; 0; 0; 0; 0; 0; 0; 0]) |}.

Definition start_minus_1 : File :=
  {| file_name := js "b.crx";
     file_bytes := bytes (repeat 0 12 ++ [239; 255; 255; 255; 0; 0; 0; 0]) |}.

(** A text member that is not ASCII: the two bytes of U+00E9. *)
Definition accent_upload : File :=
  {| file_name := js "accent.zip";
     file_bytes := StoredZip.stored_zip [(js "a.txt", bytes [195; 169])] |}.

(** Two archives that differ in the single byte of [data.json]. *)
Definition binary_json_upload (b : Z) : File :=
  {| file_name := js "data.zip";
     file_bytes := StoredZip.stored_zip [(js "data.json", bytes [b])] |}.

(** An archive whose manifest is not JSON. *)
Definition malformed_upload : File :=
  {| file_name := js "malformed.zip";
     file_bytes :=
       StoredZip.stored_zip
         [ (js "manifest.json", bytes (json_text "{'name': oops"));
           (js "popup.html", bytes popup_html) ] |}.

(** An archive whose manifests are nested or differently cased. *)
Definition nested_upload : File :=
  {| file_name := js "nested.zip";
     file_bytes :=
       StoredZip.stored_zip
         [ (js "subdir/", []);
           (js "subdir/manifest.json", bytes manifest_json);
           (js "Manifest.json", bytes manifest_json);
           (js "icon.png", bytes [137; 80; 78; 71]) ] |}.

(** Uploads that are rejected or fail. *)
Definition notes_upload : File :=
  {| file_name := js "notes.txt"; file_bytes := bytes (js "hello") |}.


(** The state after the example archive was uploaded into the initial
    state and its first file selected. *)
Definition after_example : AnalyzerState :=
  let st := fst (handleFileUpload StoredZip.loadAsync initialState (Some example_upload)) in
  {| files := files st; manifest := manifest st;
     selectedFile := hd_error (files st); isProcessing := isProcessing st |}.

(** The runner screen for the example extension. *)
Definition example_data : Runner.ExtensionData :=
  {| Runner.manifest := example_descriptor;
     Runner.files :=
       [ member_file (js "manifest.json") (bytes manifest_json);
         member_file (js "popup.html") (bytes popup_html) ] |}.

(** ** What the screens render and the actions they offer *)








(** The URLs of a registry are distinct and older than the next one. *)
Definition fresh_store (w : UrlStore) : Prop :=
  NoDup (map fst (live w)) /\
  forall e, In e (live w) -> (fst e < next_url w)%nat.

(** The runner has something to show: an HTML text file, or a manifest that
    is not [null]. *)
Definition runnable (d : Runner.ExtensionData) : bool :=
  match find Runner.is_html (Runner.files d) with
  | Some _ => true
  | None =>
      match Runner.manifest d with
      | JNull => false
      | _ => true
      end
  end.

Definition is_run (c : Runner.Click) : bool :=
  match c with
  | Runner.Ejecutar => true
  | Runner.Recargar => false
  end.

(** The screen of runnable data that has a preview: its URL is live. *)
Definition previewing (d : Runner.ExtensionData) (sw : Runner.State * UrlStore) : Prop :=
  Runner.extensionData (fst sw) = Some d /\
  fresh_store (snd sw) /\
  exists url, Runner.extensionUrl (fst sw) = Some url /\
              In url (map fst (live (snd sw))).


(** An extracted entry is the one the loop builds from some member. *)
Definition built_from (f : ExtensionFile) (entry : jsstring * ZipEntry) : Prop :=
  exists raw, data (snd entry) = Some raw /\ f = member_file (fst entry) raw.

(** The length of a content: code units of a text, bytes of a buffer. *)
Definition content_units (c : Content) : Z :=
  match c with
  | Text s => Z.of_nat (length s)
  | Binary b => Z.of_nat (length b)
  end.

(** More concrete inputs. *)
Definition tiny_crx : File :=
  {| file_name := js "tiny.crx"; file_bytes := bytes [67; 114; 50; 52; 2; 0; 0; 0] |}.


Definition two_pages_data : Runner.ExtensionData :=
  {| Runner.manifest := JNull;
     Runner.files :=
       [ member_file (js "icon.png") (bytes [137; 80; 78; 71]);
         member_file (js "options.html") (bytes (js "<p>options</p>"));
         member_file (js "popup.html") (bytes popup_html) ] |}.

(** * Verification *)

(** ** Strings *)

Lemma jsstring_eqb_eq (a b : jsstring) : jsstring_eqb a b = true <-> a = b.
Proof.
  revert b; induction a as [|x a IH]; intros [|y b]; simpl; split; intros H;
    try reflexivity; try discriminate.
  - apply andb_true_iff in H as [Hx Hab].
    apply Z.eqb_eq in Hx. apply IH in Hab. congruence.
  - injection H as -> ->. rewrite Z.eqb_refl. simpl. now apply IH.
Qed.


Lemma jsstring_eqb_neq (a b : jsstring) : jsstring_eqb a b = false <-> a <> b.
Proof.
  split.
  - intros H E. apply jsstring_eqb_eq in E. congruence.
  - intros H. destruct (jsstring_eqb a b) eqn:E; [|reflexivity].
    apply jsstring_eqb_eq in E. contradiction.
Qed.

(** [endsWith] is exactly "[suffix] is a suffix of [s]". *)
Lemma endsWith_spec (s suffix : jsstring) :
  endsWith s suffix = true <-> exists front, s = front ++ suffix.
Proof.
  unfold endsWith. rewrite andb_true_iff, Nat.leb_le, jsstring_eqb_eq. split.
  - intros [Hlen Hskip]. exists (firstn (length s - length suffix) s).
    rewrite <- (firstn_skipn (length s - length suffix) s) at 1.
    f_equal. exact Hskip.
  - intros [front ->]. rewrite length_app. split; [lia|].
    replace (length front + length suffix - length suffix)%nat
      with (length front + 0)%nat by lia.
    rewrite skipn_app, Nat.add_comm. simpl.
    rewrite skipn_all2 by lia.
    replace (length front - length front)%nat with O by lia. reflexivity.
Qed.

(** A name has at most one suffix of a given length. *)
Lemma endsWith_same_length (s a b : jsstring) :
  endsWith s a = true -> endsWith s b = true -> length a = length b -> a = b.
Proof.
  unfold endsWith. rewrite !andb_true_iff, !jsstring_eqb_eq.
  intros [_ Ha] [_ Hb] Hlen. rewrite Hlen in Ha. congruence.
Qed.

Lemma zip_name_not_crx (fileName : jsstring) :
  endsWith fileName (js ".zip") = true -> endsWith fileName (js ".crx") = false.
Proof.
  intros Hzip. destruct (endsWith fileName (js ".crx")) eqn:Hcrx; [|reflexivity].
  pose proof (endsWith_same_length _ _ _ Hzip Hcrx eq_refl) as E. discriminate E.
Qed.

(** ** Header arithmetic *)

Lemma to_int32_small (z : Z) : - 2 ^ 31 <= z < 2 ^ 31 -> to_int32 z = z.
Proof.
  intros H. unfold to_int32. rewrite Z.mod_small; lia.
Qed.

Lemma to_int32_range (z : Z) : - 2 ^ 31 <= to_int32 z < 2 ^ 31.
Proof.
  unfold to_int32. pose proof (Z.mod_pos_bound (z + 2 ^ 31) (2 ^ 32)). lia.
Qed.

Lemma to_int32_idem (z : Z) : to_int32 (to_int32 z) = to_int32 z.
Proof. apply to_int32_small, to_int32_range. Qed.

Lemma byte_val_range (b : byte) : 0 <= byte_val b < 256.
Proof.
  unfold byte_val. pose proof (Byte.to_N_bounded b). lia.
Qed.

Lemma view_at_range (view : list byte) (i : nat) : 0 <= view_at view i < 256.
Proof.
  unfold view_at. destruct (nth_error view i); [apply byte_val_range | lia].
Qed.

(** Bits that do not overlap are added by [|]. *)
Lemma lor_low_high (x y k : Z) :
  0 <= k -> 0 <= x < 2 ^ k -> Z.lor x (y * 2 ^ k) = x + y * 2 ^ k.
Proof.
  intros Hk Hx.
  assert (Hland : Z.land x (y * 2 ^ k) = 0).
  { apply Z.bits_inj'. intros n Hn. rewrite Z.land_spec, Z.bits_0.
    destruct (Z.lt_ge_cases n k) as [Hlt | Hge].
    - rewrite Z.mul_pow2_bits_low by lia. apply andb_false_r.
    - rewrite <- (Z.mod_small x (2 ^ k)) by lia.
      rewrite Z.mod_pow2_bits_high by lia. reflexivity. }
  rewrite Z.add_nocarry_lxor by exact Hland.
  symmetry. apply Z.lxor_lor. exact Hland.
Qed.

Lemma le32u_range (view : list byte) (i : nat) : 0 <= le32u view i < 2 ^ 32.
Proof.
  unfold le32u.
  pose proof (view_at_range view i). pose proof (view_at_range view (i + 1)).
  pose proof (view_at_range view (i + 2)). pose proof (view_at_range view (i + 3)).
  lia.
Qed.

Lemma js_or_low_high (x y k : Z) :
  0 <= k -> 0 <= x < 2 ^ k -> 2 ^ k <= 2 ^ 31 ->
  - 2 ^ 31 <= y * 2 ^ k -> x + y * 2 ^ k < 2 ^ 31 ->
  js_or x (y * 2 ^ k) = x + y * 2 ^ k.
Proof.
  intros Hk Hx Hk31 Hlo Hhi. unfold js_or.
  rewrite (to_int32_small x) by lia.
  rewrite (to_int32_small (y * 2 ^ k)) by lia.
  rewrite lor_low_high by lia. apply to_int32_small. lia.
Qed.

Lemma js_shl_byte (b k : Z) :
  0 <= b < 256 -> 0 <= k < 32 -> js_shl b k = to_int32 (b * 2 ^ k).
Proof.
  intros Hb Hk. unfold js_shl. rewrite (to_int32_small b) by lia.
  rewrite Z.mod_small by lia. rewrite Z.shiftl_mul_pow2 by lia. reflexivity.
Qed.

Lemma to_int32_high_byte (d : Z) :
  0 <= d < 256 ->
  to_int32 (d * 2 ^ 24) = (if d <? 128 then d else d - 256) * 2 ^ 24.
Proof.
  intros Hd. destruct (Z.ltb_spec d 128).
  - apply to_int32_small. lia.
  - unfold to_int32.
    replace (d * 2 ^ 24 + 2 ^ 31)
      with ((d - 256) * 2 ^ 24 + 2 ^ 31 + 1 * 2 ^ 32) by lia.
    rewrite Z.mod_add by lia. rewrite Z.mod_small by lia. lia.
Qed.

(** The expression of the source reads a little-endian 32-bit field as a
    signed (two's complement) integer. *)
Lemma read_length_le32 (view : list byte) (i : nat) :
  read_length view i = to_int32 (le32u view i).
Proof.
  unfold read_length, le32u.
  pose proof (view_at_range view i) as H0.
  pose proof (view_at_range view (i + 1)) as H1.
  pose proof (view_at_range view (i + 2)) as H2.
  pose proof (view_at_range view (i + 3)) as H3.
  set (a := view_at view i) in *. set (b := view_at view (i + 1)) in *.
  set (c := view_at view (i + 2)) in *. set (d := view_at view (i + 3)) in *.
  rewrite !js_shl_byte by lia.
  rewrite (to_int32_small (b * 2 ^ 8)) by lia.
  rewrite (to_int32_small (c * 2 ^ 16)) by lia.
  rewrite to_int32_high_byte by lia.
  rewrite (js_or_low_high a b 8) by lia.
  rewrite (js_or_low_high (a + b * 2 ^ 8) c 16) by lia.
  destruct (Z.ltb_spec d 128).
  - rewrite js_or_low_high by lia.
    rewrite to_int32_small by lia. lia.
  - rewrite js_or_low_high by lia.
    unfold to_int32.
    replace (a + 2 ^ 8 * b + 2 ^ 16 * c + 2 ^ 24 * d + 2 ^ 31)
      with (a + b * 2 ^ 8 + c * 2 ^ 16 + (d - 256) * 2 ^ 24 + 2 ^ 31 + 1 * 2 ^ 32) by lia.
    rewrite Z.mod_add by lia. rewrite Z.mod_small by lia. lia.
Qed.

(** [slice] is total: the start it uses always lies within the buffer. *)
Lemma slice_start_range (len begin : Z) :
  0 <= len -> 0 <= slice_start len begin <= len.
Proof.
  intros H. unfold slice_start. destruct (Z.ltb_spec begin 0); lia.
Qed.

Lemma ArrayBuffer_slice_inside (buf : list byte) (begin : Z) :
  0 <= begin ->
  ArrayBuffer_slice buf begin = skipn (Z.to_nat begin) buf.
Proof.
  intros H. unfold ArrayBuffer_slice, slice_start.
  destruct (Z.ltb_spec begin 0); [lia|].
  destruct (Z.le_gt_cases begin (Z.of_nat (length buf))).
  - rewrite Z.min_l by lia. reflexivity.
  - rewrite Z.min_r by lia. rewrite Nat2Z.id.
    rewrite !skipn_all2 by lia. reflexivity.
Qed.

Lemma ArrayBuffer_slice_beyond (buf : list byte) (begin : Z) :
  Z.of_nat (length buf) <= begin -> ArrayBuffer_slice buf begin = [].
Proof.
  intros H. rewrite ArrayBuffer_slice_inside by lia. apply skipn_all2. lia.
Qed.

Lemma ArrayBuffer_slice_negative (buf : list byte) (begin : Z) :
  begin < 0 ->
  ArrayBuffer_slice buf begin
  = skipn (length buf - Z.to_nat (- begin)) buf.
Proof.
  intros H. unfold ArrayBuffer_slice, slice_start.
  destruct (Z.ltb_spec begin 0); [|lia]. f_equal. lia.
Qed.

(** ** The extraction loop *)

Arguments js : simpl never.

Lemma content_size_text (s : jsstring) : content_size (Text s) = Z.of_nat (length s).
Proof.
  unfold content_size, content_length, content_byteLength, or_else.
  generalize (Z.of_nat (length s)). intros n.
  destruct (Z.eqb_spec n 0) as [E|E]; [now subst |].
  destruct (Z.eqb_spec n 0); [contradiction | reflexivity].
Qed.

Lemma content_size_binary (b : list byte) :
  content_size (Binary b) = Z.of_nat (length b).
Proof.
  unfold content_size, content_length, content_byteLength, or_else.
  generalize (Z.of_nat (length b)). intros n.
  destruct (Z.eqb_spec n 0) as [E|E]; [now subst |].
  destruct (Z.eqb_spec n 0); [contradiction | reflexivity].
Qed.

Lemma manifest_name_is_text : is_text_name (js "manifest.json") = true.
Proof. reflexivity. Qed.

Lemma extract_entry_dir acc fileName zipEntry :
  dir zipEntry = true -> extract_entry acc (fileName, zipEntry) = ret acc.
Proof. intros H. unfold extract_entry. destruct acc. now rewrite H. Qed.

Lemma extract_entry_rejected acc fileName zipEntry :
  dir zipEntry = false -> data zipEntry = None ->
  extract_entry acc (fileName, zipEntry) = ([], None).
Proof. intros Hd Hr. unfold extract_entry. destruct acc. now rewrite Hd, Hr. Qed.

Lemma extract_entry_member fs m fileName zipEntry raw :
  dir zipEntry = false -> data zipEntry = Some raw ->
  extract_entry (fs, m) (fileName, zipEntry)
  = (fst (manifest_step m fileName raw),
     Some (fs ++ [member_file fileName raw], snd (manifest_step m fileName raw))).
Proof.
  intros Hd Hr. unfold extract_entry, manifest_step, member_file, member_content.
  rewrite Hd, Hr. simpl.
  destruct (jsstring_eqb fileName (js "manifest.json")) eqn:E; simpl.
  - apply jsstring_eqb_eq in E. subst fileName. rewrite manifest_name_is_text. simpl.
    destruct (JSON_parse (buf2string raw)); reflexivity.
  - destruct (is_text_name fileName); reflexivity.
Qed.

Lemma member_file_unpacked fileName zipEntry raw :
  data zipEntry = Some raw ->
  unpacked_from (member_file fileName raw) (fileName, zipEntry).
Proof.
  intros Hr. unfold unpacked_from, member_file, member_content. simpl.
  split; [reflexivity|]. split; [reflexivity|].
  exists raw. split; [exact Hr|].
  destruct (is_text_name fileName); [reflexivity|].
  split; [reflexivity | apply content_size_binary].
Qed.

(** When every member can be read the loop reaches its end, and it has
    appended one entry per non-directory member, in order. *)
Lemma extract_entries_readable entries : forall fs m,
  forallb readable entries = true ->
  exists log fs' m',
    extract_entries entries (fs, m) = (log, Some (fs ++ fs', m')) /\
    Forall2 unpacked_from fs' (members entries) /\
    toasts_of log = [] /\ loads_of log = [].
Proof.
  induction entries as [|[fileName zipEntry] entries IH]; intros fs m Hall.
  - exists [], [], m. simpl. rewrite app_nil_r. repeat split; constructor.
  - simpl in Hall. apply andb_true_iff in Hall as [Hr Hall].
    unfold readable in Hr. simpl in Hr. cbn [extract_entries].
    destruct (dir zipEntry) eqn:Hd.
    + rewrite extract_entry_dir by exact Hd.
      destruct (IH fs m Hall) as (log & fs' & m' & Heq & Hfs & Ht & Hl).
      exists log, fs', m'. unfold members. simpl. rewrite Hd. simpl.
      unfold bind, ret. rewrite Heq. simpl. repeat split; assumption.
    + destruct (data zipEntry) as [raw|] eqn:Hraw; [|discriminate].
      rewrite (extract_entry_member fs m fileName zipEntry raw Hd Hraw).
      destruct (IH (fs ++ [member_file fileName raw])
                   (snd (manifest_step m fileName raw)) Hall)
        as (log & fs' & m' & Heq & Hfs & Ht & Hl).
      exists (fst (manifest_step m fileName raw) ++ log),
             (member_file fileName raw :: fs'), m'.
      unfold members. simpl. rewrite Hd. simpl.
      unfold bind. rewrite Heq. rewrite <- app_assoc. simpl.
      split; [reflexivity|]. split.
      * constructor; [now apply member_file_unpacked | exact Hfs].
      * unfold toasts_of, loads_of in *. rewrite !flat_map_app, Ht, Hl.
        unfold manifest_step.
        destruct (jsstring_eqb fileName (js "manifest.json"));
          [destruct (JSON_parse (buf2string raw))|]; split; reflexivity.
Qed.

(** A member whose data is rejected makes the loop throw. *)
Lemma extract_entries_rejected entries : forall acc,
  forallb readable entries = false ->
  snd (extract_entries entries acc) = None.
Proof.
  induction entries as [|[fileName zipEntry] entries IH]; intros [fs m] Hall.
  - discriminate.
  - simpl in Hall. apply andb_false_iff in Hall. cbn [extract_entries].
    unfold readable in Hall. simpl in Hall.
    destruct (dir zipEntry) eqn:Hd.
    + rewrite extract_entry_dir by exact Hd. simpl in Hall.
      destruct Hall as [Hall|Hall]; [discriminate|].
      specialize (IH (fs, m) Hall). unfold bind, ret.
      destruct (extract_entries entries (fs, m)) as [log r]. simpl in *. exact IH.
    + destruct (data zipEntry) as [raw|] eqn:Hraw.
      * simpl in Hall. destruct Hall as [Hall|Hall]; [discriminate|].
        rewrite (extract_entry_member fs m fileName zipEntry raw Hd Hraw).
        unfold bind.
        specialize (IH (fs ++ [member_file fileName raw],
                        snd (manifest_step m fileName raw)) Hall).
        destruct (extract_entries entries _) as [log r]. simpl in *. exact IH.
      * rewrite extract_entry_rejected by assumption. reflexivity.
Qed.

(** The events of the loop are manifest parse errors only. *)
Lemma extract_entries_log entries : forall acc,
  toasts_of (fst (extract_entries entries acc)) = [] /\
  loads_of (fst (extract_entries entries acc)) = [].
Proof.
  induction entries as [|[fileName zipEntry] entries IH]; intros [fs m].
  - split; reflexivity.
  - cbn [extract_entries]. destruct (dir zipEntry) eqn:Hd.
    + rewrite extract_entry_dir by exact Hd. unfold bind, ret.
      specialize (IH (fs, m)).
      destruct (extract_entries entries (fs, m)) as [log r]. exact IH.
    + destruct (data zipEntry) as [raw|] eqn:Hraw.
      * rewrite (extract_entry_member fs m fileName zipEntry raw Hd Hraw).
        unfold bind.
        specialize (IH (fs ++ [member_file fileName raw],
                        snd (manifest_step m fileName raw))).
        destruct (extract_entries entries _) as [log r]. simpl in *.
        unfold toasts_of, loads_of in *. rewrite !flat_map_app.
        destruct IH as [-> ->]. unfold manifest_step.
        destruct (jsstring_eqb fileName (js "manifest.json"));
          [destruct (JSON_parse (buf2string raw))|]; split; reflexivity.
      * rewrite extract_entry_rejected by assumption. split; reflexivity.
Qed.

(** Without a member that gives a descriptor, [manifestData] keeps its
    value through the loop. *)
Lemma extract_entries_no_descriptor entries : forall fs m log fs' m',
  Forall no_descriptor entries ->
  extract_entries entries (fs, m) = (log, Some (fs', m')) ->
  m' = m.
Proof.
  induction entries as [|[fileName zipEntry] entries IH];
    intros fs m log fs' m' Hno Heq.
  - simpl in Heq. unfold ret in Heq. congruence.
  - inversion Hno as [|e es Hhead Htail]; subst. cbn [extract_entries] in Heq.
    destruct (dir zipEntry) eqn:Hd.
    + rewrite extract_entry_dir in Heq by exact Hd. unfold bind, ret in Heq.
      destruct (extract_entries entries (fs, m)) as [log0 r] eqn:E.
      simpl in Heq. injection Heq as <- ->. eapply IH; eassumption.
    + destruct (data zipEntry) as [raw|] eqn:Hraw.
      * rewrite (extract_entry_member fs m fileName zipEntry raw Hd Hraw) in Heq.
        unfold bind in Heq.
        destruct (extract_entries entries _) as [log0 r] eqn:E.
        injection Heq as <- ->.
        apply (IH _ _ _ _ _ Htail) in E. rewrite E.
        unfold manifest_step.
        destruct (jsstring_eqb fileName (js "manifest.json")) eqn:En;
          [|reflexivity].
        apply jsstring_eqb_eq in En.
        destruct Hhead as [Hdir | [Hname | Hbad]]; simpl in *.
        -- congruence.
        -- contradiction.
        -- now rewrite (Hbad raw Hraw).
      * rewrite extract_entry_rejected in Heq by assumption. discriminate.
Qed.

(** ** The upload handler *)

Section Handler.

Variable loadAsync : list byte -> option (list (jsstring * ZipEntry)).

Lemma unpack_rejected (file : File) :
  loadAsync (zipData_of file) = None ->
  unpack loadAsync file = ([EvLoadAsync (zipData_of file)], None).
Proof. intros H. unfold unpack, bind, emit, await. now rewrite H. Qed.

Lemma unpack_loaded (file : File) entries :
  loadAsync (zipData_of file) = Some entries ->
  unpack loadAsync file
  = (EvLoadAsync (zipData_of file) :: fst (extract_entries entries ([], JNull)),
     snd (extract_entries entries ([], JNull))).
Proof.
  intros H. unfold unpack, bind, emit, await, ret. rewrite H.
  destruct (extract_entries entries ([], JNull)) as [log r]. reflexivity.
Qed.

(** The library is called exactly once, on [zipData_of file], and the
    [try] block shows no toast. *)
Lemma unpack_events (file : File) :
  loads_of (fst (unpack loadAsync file)) = [zipData_of file] /\
  toasts_of (fst (unpack loadAsync file)) = [] /\
  exists log, fst (unpack loadAsync file) = EvLoadAsync (zipData_of file) :: log.
Proof.
  destruct (loadAsync (zipData_of file)) as [entries|] eqn:E.
  - rewrite (unpack_loaded file entries E). simpl.
    destruct (extract_entries_log entries ([], JNull)) as [Ht Hl].
    rewrite Ht, Hl. repeat split. eexists. reflexivity.
  - rewrite (unpack_rejected file E). simpl. repeat split. eexists. reflexivity.
Qed.

(** Unpacking succeeds exactly when the library accepts the payload and
    every member can be read. *)
Lemma unpack_succeeds_iff (file : File) :
  unpack_succeeds loadAsync file = true <->
  exists entries,
    loadAsync (zipData_of file) = Some entries /\ forallb readable entries = true.
Proof.
  unfold unpack_succeeds. split.
  - intros H. destruct (loadAsync (zipData_of file)) as [entries|] eqn:E.
    + exists entries. split; [reflexivity|].
      rewrite (unpack_loaded file entries E) in H. simpl in H.
      destruct (forallb readable entries) eqn:Hr; [reflexivity|].
      rewrite (extract_entries_rejected entries ([], JNull) Hr) in H. discriminate.
    + rewrite (unpack_rejected file E) in H. discriminate.
  - intros (entries & E & Hr). rewrite (unpack_loaded file entries E). simpl.
    destruct (extract_entries_readable entries [] JNull Hr)
      as (log & fs' & m' & Heq & _). now rewrite Heq.
Qed.

(** What a successful unpack returns. *)
Lemma unpack_success_inv (file : File) fs m :
  snd (unpack loadAsync file) = Some (fs, m) ->
  exists entries,
    loadAsync (zipData_of file) = Some entries /\
    forallb readable entries = true /\
    Forall2 unpacked_from fs (members entries) /\
    (Forall no_descriptor entries -> m = JNull).
Proof.
  intros H. destruct (loadAsync (zipData_of file)) as [entries|] eqn:E.
  - exists entries. rewrite (unpack_loaded file entries E) in H. simpl in H.
    destruct (forallb readable entries) eqn:Hr.
    + destruct (extract_entries_readable entries [] JNull Hr)
        as (log & fs' & m' & Heq & Hfs & _).
      rewrite Heq in H. simpl in H. injection H as <- <-.
      repeat split; try assumption.
      intros Hno. eapply extract_entries_no_descriptor; eassumption.
    + rewrite (extract_entries_rejected entries ([], JNull) Hr) in H. discriminate.
  - rewrite (unpack_rejected file E) in H. discriminate.
Qed.

Lemma handle_success (st : AnalyzerState) (file : File) fs m :
  accepted_name (file_name file) = true ->
  snd (unpack loadAsync file) = Some (fs, m) ->
  handleFileUpload loadAsync st (Some file)
  = ({| files := fs; manifest := m; selectedFile := None; isProcessing := false |},
     fst (unpack loadAsync file) ++ [EvToast (ExtensionExtraida (length fs))]).
Proof.
  intros Hacc Hs. unfold handleFileUpload. unfold accepted_name in Hacc.
  rewrite <- negb_orb, Hacc. simpl.
  destruct (unpack loadAsync file) as [log r]. simpl in Hs. now subst r.
Qed.

Lemma handle_failure (st : AnalyzerState) (file : File) :
  accepted_name (file_name file) = true ->
  snd (unpack loadAsync file) = None ->
  handleFileUpload loadAsync st (Some file)
  = ({| files := files st; manifest := manifest st;
        selectedFile := selectedFile st; isProcessing := false |},
     fst (unpack loadAsync file) ++ [EvErrorProcessingFile; EvToast ErrorProcesar]).
Proof.
  intros Hacc Hs. unfold handleFileUpload. unfold accepted_name in Hacc.
  rewrite <- negb_orb, Hacc. simpl.
  destruct (unpack loadAsync file) as [log r]. simpl in Hs. now subst r.
Qed.

Lemma handle_rejected (st : AnalyzerState) (file : File) :
  accepted_name (file_name file) = false ->
  handleFileUpload loadAsync st (Some file) = (st, [EvToast ArchivoNoValido]).
Proof.
  intros Hacc. unfold handleFileUpload. unfold accepted_name in Hacc.
  now rewrite <- negb_orb, Hacc.
Qed.

End Handler.

Lemma Forall2_In_l {A B : Type} (R : A -> B -> Prop) (l : list A) (l' : list B) (a : A) :
  Forall2 R l l' -> In a l -> exists b, In b l' /\ R a b.
Proof.
  induction 1 as [|x y l l' Hxy _ IH]; intros Hin; [contradiction|].
  destruct Hin as [<- | Hin].
  - exists y. split; [now left | exact Hxy].
  - destruct (IH Hin) as (b & Hb & Hab). exists b. split; [now right | exact Hab].
Qed.

Lemma Forall2_names fs entries :
  Forall2 unpacked_from fs entries -> map name fs = map fst entries.
Proof.
  induction 1 as [|f e fs entries [Hn _] _ IH]; [reflexivity|].
  simpl. now rewrite Hn, IH.
Qed.

Lemma in_members fileName zipEntry entries :
  In (fileName, zipEntry) entries -> dir zipEntry = false ->
  In (fileName, zipEntry) (members entries).
Proof.
  intros Hin Hd. unfold members. apply filter_In. split; [exact Hin|].
  simpl. now rewrite Hd.
Qed.

(** A JS object has one value per key. *)
Lemma NoDup_keys_unique {A : Type} (l : list (jsstring * A)) k v v' :
  NoDup (map fst l) -> In (k, v) l -> In (k, v') l -> v = v'.
Proof.
  induction l as [|[k0 v0] l IH]; intros Hnd Hv Hv'; [contradiction|].
  simpl in Hnd. inversion Hnd as [|? ? Hnotin Hnd']; subst.
  destruct Hv as [Hv|Hv], Hv' as [Hv'|Hv'].
  - congruence.
  - injection Hv as -> ->. exfalso. apply Hnotin.
    change k with (fst (k, v')). now apply in_map.
  - injection Hv' as -> ->. exfalso. apply Hnotin.
    change k with (fst (k, v)). now apply in_map.
  - now apply IH.
Qed.

(** The regular expression of the source, spelled out. *)
Lemma is_text_name_spec (fileName : jsstring) :
  is_text_name fileName = true <->
  exists ext, In ext text_extensions /\
              endsWith (map fold_case fileName) (js ext) = true.
Proof.
  unfold is_text_name. rewrite existsb_exists. reflexivity.
Qed.

(** ** Signed packages *)

(** C1, as amended.  For a [.crx] upload the two length fields are the
    little-endian 32-bit values at bytes 12-15 and 16-19, read as signed
    integers; the archive start is 16 plus both; the payload is the slice of
    the buffer from that start (the bytes from the start on when it is not
    negative, nothing when it is at or past the end); and unpacking succeeds
    exactly when the archive library accepts that payload and every member
    can be read. *)
Theorem crx_archive_start
    (loadAsync : list byte -> option (list (jsstring * ZipEntry))) (file : File) :
  endsWith (file_name file) (js ".crx") = true ->
  publicKeyLength (file_bytes file) = to_int32 (le32u (file_bytes file) 12) /\
  signatureLength (file_bytes file) = to_int32 (le32u (file_bytes file) 16) /\
  zipStartOffset (file_bytes file)
    = 16 + publicKeyLength (file_bytes file) + signatureLength (file_bytes file) /\
  zipData_of file = ArrayBuffer_slice (file_bytes file) (zipStartOffset (file_bytes file)) /\
  (0 <= zipStartOffset (file_bytes file) ->
   zipData_of file = skipn (Z.to_nat (zipStartOffset (file_bytes file))) (file_bytes file)) /\
  (Z.of_nat (length (file_bytes file)) <= zipStartOffset (file_bytes file) ->
   zipData_of file = []) /\
  (unpack_succeeds loadAsync file = true <->
   exists entries,
     loadAsync (zipData_of file) = Some entries /\ forallb readable entries = true).
Proof.
  intros Hcrx.
  assert (Hz : zipData_of file
               = ArrayBuffer_slice (file_bytes file) (zipStartOffset (file_bytes file))).
  { unfold zipData_of. now rewrite Hcrx. }
  split; [apply read_length_le32|].
  split; [apply read_length_le32|].
  split; [reflexivity|].
  split; [exact Hz|].
  split; [intros H; rewrite Hz; now apply ArrayBuffer_slice_inside|].
  split; [intros H; rewrite Hz; now apply ArrayBuffer_slice_beyond|].
  apply unpack_succeeds_iff.
Qed.

Lemma crx_archive_start_witness :
  endsWith (file_name example_crx) (js ".crx") = true /\
  zipStartOffset (file_bytes example_crx) = 25 /\
  zipData_of example_crx = example_zip /\
  unpack_succeeds StoredZip.loadAsync example_crx = true.
Proof.
  pose proof (crx_archive_start StoredZip.loadAsync example_crx eq_refl)
    as (HP & HS & Hoff & Hz & Hin & Hout & Hiff).
  split; [reflexivity|].
  split; [rewrite Hoff, HP, HS; vm_compute; reflexivity|].
  split; [rewrite Hin; vm_compute; [reflexivity | discriminate]|].
  apply Hiff. exists example_archive. split; vm_compute; reflexivity.
Defined.

(** C1, as stated, fails in both directions.  In [short_crx] the start, 16,
    lies inside the 20-byte buffer and unpacking fails (the four bytes that
    follow are no archive); in [negative_crx] the start is negative, outside
    the buffer, and unpacking succeeds. *)
Lemma crx_offset_does_not_decide_success :
  (endsWith (file_name short_crx) (js ".crx") = true /\
   inside (file_bytes short_crx) (zipStartOffset (file_bytes short_crx)) /\
   unpack_succeeds StoredZip.loadAsync short_crx = false) /\
  (endsWith (file_name negative_crx) (js ".crx") = true /\
   ~ inside (file_bytes negative_crx) (zipStartOffset (file_bytes negative_crx)) /\
   unpack_succeeds StoredZip.loadAsync negative_crx = true).
Proof.
  split; (split; [reflexivity|]); split.
  - unfold inside. vm_compute. split; [discriminate | reflexivity].
  - vm_compute. reflexivity.
  - unfold inside. vm_compute. intros [H _]. apply H. reflexivity.
  - vm_compute. reflexivity.
Qed.

(** The same holds whatever the archive library does: [start_19] and
    [start_minus_1] hand it the same one-byte payload, the first with a
    start inside the buffer and the second with a start outside. *)
Lemma crx_success_not_decided_by_offset
    (loadAsync : list byte -> option (list (jsstring * ZipEntry))) :
  ~ (forall file,
       endsWith (file_name file) (js ".crx") = true ->
       (unpack_succeeds loadAsync file = true <->
        inside (file_bytes file) (zipStartOffset (file_bytes file)))).
Proof.
  intros Hclaim.
  pose proof (Hclaim start_19 eq_refl) as [_ H19].
  pose proof (Hclaim start_minus_1 eq_refl) as [Hm1 _].
  assert (Hin : inside (file_bytes start_19) (zipStartOffset (file_bytes start_19))).
  { unfold inside. vm_compute. split; [discriminate | reflexivity]. }
  specialize (H19 Hin).
  assert (Hsame : unpack_succeeds loadAsync start_minus_1 = true).
  { apply unpack_succeeds_iff. apply unpack_succeeds_iff in H19.
    destruct H19 as (entries & Hload & Hr). exists entries.
    split; [|exact Hr]. rewrite <- Hload. f_equal. }
  specialize (Hm1 Hsame). unfold inside in Hm1. vm_compute in Hm1.
  destruct Hm1 as [Hm1 _]. apply Hm1. reflexivity.
Qed.

(** C7.  For a [.crx] upload whose archive start lies outside the buffer
    the slice does not fail: past the end it is empty, before the beginning
    it is the tail of the buffer counted back from its end.  The archive
    library is then called on that payload, and when unpacking fails the
    handler shows the generic error toast and no other. *)
Theorem crx_out_of_range_start
    (loadAsync : list byte -> option (list (jsstring * ZipEntry)))
    (st : AnalyzerState) (file : File) :
  endsWith (file_name file) (js ".crx") = true ->
  ~ inside (file_bytes file) (zipStartOffset (file_bytes file)) ->
  (Z.of_nat (length (file_bytes file)) <= zipStartOffset (file_bytes file) ->
   zipData_of file = []) /\
  (zipStartOffset (file_bytes file) < 0 ->
   zipData_of file
   = skipn (length (file_bytes file) - Z.to_nat (- zipStartOffset (file_bytes file)))
       (file_bytes file)) /\
  loads_of (snd (handleFileUpload loadAsync st (Some file))) = [zipData_of file] /\
  (unpack_succeeds loadAsync file = false ->
   toasts_of (snd (handleFileUpload loadAsync st (Some file))) = [ErrorProcesar] /\
   exists log,
     snd (handleFileUpload loadAsync st (Some file))
     = EvLoadAsync (zipData_of file) :: log ++ [EvErrorProcessingFile; EvToast ErrorProcesar]).
Proof.
  intros Hcrx Hout.
  assert (Hz : zipData_of file
               = ArrayBuffer_slice (file_bytes file) (zipStartOffset (file_bytes file))).
  { unfold zipData_of. now rewrite Hcrx. }
  assert (Hacc : accepted_name (file_name file) = true).
  { unfold accepted_name. now rewrite Hcrx. }
  destruct (unpack_events loadAsync file) as (Hloads & Htoasts & log & Hlog).
  split; [intros H; rewrite Hz; now apply ArrayBuffer_slice_beyond|].
  split; [intros H; rewrite Hz; now apply ArrayBuffer_slice_negative|].
  split.
  - destruct (snd (unpack loadAsync file)) as [[fs m]|] eqn:Hs.
    + rewrite (handle_success loadAsync st file fs m Hacc Hs). simpl.
      unfold loads_of in *. rewrite flat_map_app, Hloads. reflexivity.
    + rewrite (handle_failure loadAsync st file Hacc Hs). simpl.
      unfold loads_of in *. rewrite flat_map_app, Hloads. reflexivity.
  - intros Hfail. unfold unpack_succeeds in Hfail.
    destruct (snd (unpack loadAsync file)) as [[fs m]|] eqn:Hs; [discriminate|].
    rewrite (handle_failure loadAsync st file Hacc Hs). simpl. split.
    + unfold toasts_of in *. rewrite flat_map_app, Htoasts. reflexivity.
    + exists log. now rewrite Hlog.
Qed.

Lemma crx_out_of_range_start_witness :
  (endsWith (file_name overlong_crx) (js ".crx") = true /\
   ~ inside (file_bytes overlong_crx) (zipStartOffset (file_bytes overlong_crx))) /\
  zipData_of overlong_crx = [] /\
  toasts_of (snd (handleFileUpload StoredZip.loadAsync initialState (Some overlong_crx)))
  = [ErrorProcesar].
Proof.
  assert (Hout : ~ inside (file_bytes overlong_crx) (zipStartOffset (file_bytes overlong_crx))).
  { unfold inside. vm_compute. intros [_ H]. discriminate H. }
  pose proof (crx_out_of_range_start StoredZip.loadAsync initialState overlong_crx
                eq_refl Hout) as (Hbeyond & _ & _ & Hfail).
  split; [split; [reflexivity | exact Hout]|].
  split.
  - apply Hbeyond. vm_compute. discriminate.
  - apply Hfail. vm_compute. reflexivity.
Defined.

(** ** Validation of the file name *)

(** C4.  An upload whose name ends neither in [.crx] nor in [.zip] leaves
    the state as it was and causes one event, the validation toast: the
    archive library is not called. *)
Theorem invalid_extension_rejected
    (loadAsync : list byte -> option (list (jsstring * ZipEntry)))
    (st : AnalyzerState) (file : File) :
  endsWith (file_name file) (js ".crx") = false ->
  endsWith (file_name file) (js ".zip") = false ->
  handleFileUpload loadAsync st (Some file) = (st, [EvToast ArchivoNoValido]) /\
  loads_of (snd (handleFileUpload loadAsync st (Some file))) = [].
Proof.
  intros Hcrx Hzip.
  assert (H : handleFileUpload loadAsync st (Some file) = (st, [EvToast ArchivoNoValido])).
  { apply handle_rejected. unfold accepted_name. now rewrite Hcrx, Hzip. }
  split; [exact H | now rewrite H].
Qed.

Lemma invalid_extension_rejected_witness :
  (endsWith (file_name notes_upload) (js ".crx") = false /\
   endsWith (file_name notes_upload) (js ".zip") = false) /\
  handleFileUpload StoredZip.loadAsync after_example (Some notes_upload)
  = (after_example, [EvToast ArchivoNoValido]).
Proof.
  split; [split; reflexivity|].
  apply (invalid_extension_rejected StoredZip.loadAsync after_example notes_upload);
    reflexivity.
Defined.

(** ** Extracted entries *)

(** C2, as amended.  For a [.zip] upload the whole buffer is the payload;
    unpacking succeeds exactly when every member can be read, and the
    entries are then, in order, the non-directory members of the archive:
    same path; a binary entry has the member's bytes as content and their
    number as size; a text entry has the decoding of the member's bytes as
    content. *)
Theorem zip_entries_are_members
    (loadAsync : list byte -> option (list (jsstring * ZipEntry)))
    (file : File) (entries : list (jsstring * ZipEntry)) :
  endsWith (file_name file) (js ".zip") = true ->
  loadAsync (file_bytes file) = Some entries ->
  zipData_of file = file_bytes file /\
  unpack_succeeds loadAsync file = forallb readable entries /\
  forall fs m,
    snd (unpack loadAsync file) = Some (fs, m) ->
    Forall2 unpacked_from fs (members entries) /\
    map name fs = map fst (members entries).
Proof.
  intros Hzip Hload.
  assert (Hz : zipData_of file = file_bytes file).
  { unfold zipData_of. now rewrite (zip_name_not_crx _ Hzip). }
  split; [exact Hz|]. split.
  - destruct (forallb readable entries) eqn:Hr.
    + apply unpack_succeeds_iff. exists entries. rewrite Hz. now split.
    + destruct (unpack_succeeds loadAsync file) eqn:Hs; [|reflexivity].
      apply unpack_succeeds_iff in Hs. destruct Hs as (entries' & Hload' & Hr').
      rewrite Hz in Hload'. congruence.
  - intros fs m Hs. apply unpack_success_inv in Hs.
    destruct Hs as (entries' & Hload' & _ & Hfs & _).
    rewrite Hz in Hload'. assert (entries' = entries) by congruence. subst entries'.
    split; [exact Hfs | now apply Forall2_names].
Qed.

Lemma zip_entries_are_members_witness :
  (endsWith (file_name nested_upload) (js ".zip") = true /\
   exists entries, StoredZip.loadAsync (file_bytes nested_upload) = Some entries) /\
  exists fs m,
    snd (unpack StoredZip.loadAsync nested_upload) = Some (fs, m) /\
    map name fs = [js "subdir/manifest.json"; js "Manifest.json"; js "icon.png"].
Proof.
  destruct (StoredZip.loadAsync (file_bytes nested_upload)) as [entries|] eqn:Hload;
    [|vm_compute in Hload; discriminate].
  pose proof (zip_entries_are_members StoredZip.loadAsync nested_upload entries
                eq_refl Hload) as (_ & _ & Hfs).
  split; [split; [reflexivity | now exists entries]|].
  destruct (snd (unpack StoredZip.loadAsync nested_upload)) as [[fs m]|] eqn:Hs;
    [|vm_compute in Hs; discriminate].
  exists fs, m. split; [reflexivity|].
  destruct (Hfs fs m eq_refl) as [_ Hnames]. rewrite Hnames.
  vm_compute in Hload. injection Hload as <-. reflexivity.
Defined.

(** C2, as stated, fails for text members.  The member [a.txt] of
    [accent_upload] has two bytes and the entry made from it has size 1; the
    members [data.json] of two archives differ and the entries made from
    them have the same content. *)
Lemma text_entries_do_not_round_trip :
  (StoredZip.loadAsync (file_bytes accent_upload)
   = Some [(js "a.txt", stored (bytes [195; 169]))] /\
   map (fun f => (name f, size f))
       (files (fst (handleFileUpload StoredZip.loadAsync initialState (Some accent_upload))))
   = [(js "a.txt", 1)]) /\
  (StoredZip.loadAsync (file_bytes (binary_json_upload 255))
   = Some [(js "data.json", stored (bytes [255]))] /\
   StoredZip.loadAsync (file_bytes (binary_json_upload 248))
   = Some [(js "data.json", stored (bytes [248]))] /\
   bytes [255] <> bytes [248] /\
   files (fst (handleFileUpload StoredZip.loadAsync initialState
                 (Some (binary_json_upload 255))))
   = files (fst (handleFileUpload StoredZip.loadAsync initialState
                   (Some (binary_json_upload 248))))).
Proof.
  repeat split; try (vm_compute; reflexivity).
  vm_compute. discriminate.
Qed.



(** ** The manifest descriptor *)

(** C5.  When the archive holds a member [manifest.json] whose text is not
    JSON (and every member can be read), the upload succeeds: the only
    toast is the success toast, the manifest of the new state is [null], and
    the file list holds an entry for every non-directory member, among them
    [manifest.json], so it is not empty. *)
Theorem malformed_manifest_is_swallowed
    (loadAsync : list byte -> option (list (jsstring * ZipEntry)))
    (st : AnalyzerState) (file : File)
    (entries : list (jsstring * ZipEntry)) (zipEntry : ZipEntry) (raw : list byte) :
  accepted_name (file_name file) = true ->
  loadAsync (zipData_of file) = Some entries ->
  NoDup (map fst entries) ->
  forallb readable entries = true ->
  In (js "manifest.json", zipEntry) entries ->
  dir zipEntry = false ->
  data zipEntry = Some raw ->
  JSON_parse (buf2string raw) = None ->
  exists fs events,
    handleFileUpload loadAsync st (Some file)
    = ({| files := fs; manifest := JNull; selectedFile := None; isProcessing := false |},
       events) /\
    toasts_of events = [ExtensionExtraida (length fs)] /\
    fs <> [] /\
    map name fs = map fst (members entries) /\
    In (js "manifest.json") (map name fs).
Proof.
  intros Hacc Hload Hnd Hr Hin Hd Hraw Hbad.
  destruct (extract_entries_readable entries [] JNull Hr)
    as (log & fs & m & Heq & Hfs & Ht & _). simpl in Heq.
  assert (Hno : Forall no_descriptor entries).
  { apply Forall_forall. intros [fileName zipEntry'] Hin'.
    destruct (jsstring_eqb fileName (js "manifest.json")) eqn:E.
    - apply jsstring_eqb_eq in E. subst fileName.
      rewrite (NoDup_keys_unique entries _ _ _ Hnd Hin' Hin).
      right. right. intros raw' Hraw'. simpl in Hraw'. congruence.
    - apply jsstring_eqb_neq in E. right. left. exact E. }
  assert (Hm : m = JNull) by (eapply extract_entries_no_descriptor; eassumption).
  subst m.
  assert (Hs : snd (unpack loadAsync file) = Some (fs, JNull)).
  { rewrite (unpack_loaded loadAsync file entries Hload), Heq. reflexivity. }
  assert (Hnames : map name fs = map fst (members entries)) by now apply Forall2_names.
  assert (Hmem : In (js "manifest.json") (map name fs)).
  { rewrite Hnames. change (js "manifest.json") with (fst (js "manifest.json", zipEntry)).
    apply in_map. now apply in_members. }
  exists fs, (fst (unpack loadAsync file) ++ [EvToast (ExtensionExtraida (length fs))]).
  split; [now apply handle_success|].
  split.
  { destruct (unpack_events loadAsync file) as (_ & Htoasts & _).
    unfold toasts_of in *. rewrite flat_map_app, Htoasts. reflexivity. }
  split; [|split; assumption].
  intros ->. contradiction.
Qed.

Lemma malformed_manifest_is_swallowed_witness :
  JSON_parse (buf2string (bytes (json_text "{'name': oops"))) = None /\
  exists fs events,
    handleFileUpload StoredZip.loadAsync after_example (Some malformed_upload)
    = ({| files := fs; manifest := JNull; selectedFile := None; isProcessing := false |},
       events) /\
    length fs = 2%nat.
Proof.
  split; [vm_compute; reflexivity|].
  destruct (StoredZip.loadAsync (zipData_of malformed_upload)) as [entries|] eqn:Hload;
    [|vm_compute in Hload; discriminate].
  assert (Hentries : entries
            = [ (js "manifest.json", stored (bytes (json_text "{'name': oops")));
                (js "popup.html", stored (bytes popup_html)) ]).
  { vm_compute in Hload. injection Hload as <-. reflexivity. }
  destruct (malformed_manifest_is_swallowed StoredZip.loadAsync after_example
              malformed_upload entries
              (stored (bytes (json_text "{'name': oops")))
              (bytes (json_text "{'name': oops")))
    as (fs & events & Hh & _ & _ & Hnames & _).
  - reflexivity.
  - exact Hload.
  - rewrite Hentries. vm_compute.
    repeat constructor; simpl; intuition discriminate.
  - rewrite Hentries. vm_compute. reflexivity.
  - rewrite Hentries. left. reflexivity.
  - reflexivity.
  - reflexivity.
  - vm_compute. reflexivity.
  - exists fs, events. split; [exact Hh|].
    rewrite <- (length_map name), Hnames, Hentries. reflexivity.
Defined.

(** C10.  When no non-directory member of the archive is named exactly
    [manifest.json] (and every member can be read), the upload succeeds and
    the manifest of the new state is [null].  A nested path and a
    differently cased name are not that name. *)
Theorem descriptor_needs_top_level_manifest
    (loadAsync : list byte -> option (list (jsstring * ZipEntry)))
    (st : AnalyzerState) (file : File) (entries : list (jsstring * ZipEntry)) :
  accepted_name (file_name file) = true ->
  loadAsync (zipData_of file) = Some entries ->
  forallb readable entries = true ->
  (forall fileName zipEntry,
     In (fileName, zipEntry) entries -> dir zipEntry = false ->
     fileName <> js "manifest.json") ->
  (exists fs events,
     handleFileUpload loadAsync st (Some file)
     = ({| files := fs; manifest := JNull; selectedFile := None; isProcessing := false |},
        events) /\
     toasts_of events = [ExtensionExtraida (length fs)] /\
     map name fs = map fst (members entries)) /\
  js "subdir/manifest.json" <> js "manifest.json" /\
  js "Manifest.json" <> js "manifest.json".
Proof.
  intros Hacc Hload Hr Hnone.
  split; [|split; discriminate].
  destruct (extract_entries_readable entries [] JNull Hr)
    as (log & fs & m & Heq & Hfs & Ht & _). simpl in Heq.
  assert (Hno : Forall no_descriptor entries).
  { apply Forall_forall. intros [fileName zipEntry] Hin.
    destruct (dir zipEntry) eqn:Hd.
    - left. exact Hd.
    - right. left. simpl. now apply (Hnone fileName zipEntry). }
  assert (Hm : m = JNull) by (eapply extract_entries_no_descriptor; eassumption).
  subst m.
  assert (Hs : snd (unpack loadAsync file) = Some (fs, JNull)).
  { rewrite (unpack_loaded loadAsync file entries Hload), Heq. reflexivity. }
  exists fs, (fst (unpack loadAsync file) ++ [EvToast (ExtensionExtraida (length fs))]).
  split; [now apply handle_success|].
  split; [|now apply Forall2_names].
  destruct (unpack_events loadAsync file) as (_ & Htoasts & _).
  unfold toasts_of in *. rewrite flat_map_app, Htoasts. reflexivity.
Qed.

Lemma descriptor_needs_top_level_manifest_witness :
  exists fs events,
    handleFileUpload StoredZip.loadAsync after_example (Some nested_upload)
    = ({| files := fs; manifest := JNull; selectedFile := None; isProcessing := false |},
       events) /\
    map name fs = [js "subdir/manifest.json"; js "Manifest.json"; js "icon.png"].
Proof.
  destruct (StoredZip.loadAsync (zipData_of nested_upload)) as [entries|] eqn:Hload;
    [|vm_compute in Hload; discriminate].
  assert (Hentries : entries
            = [ (js "subdir/", {| dir := true; data := Some [] |});
                (js "subdir/manifest.json", stored (bytes manifest_json));
                (js "Manifest.json", stored (bytes manifest_json));
                (js "icon.png", stored (bytes [137; 80; 78; 71])) ]).
  { vm_compute in Hload. injection Hload as <-. reflexivity. }
  destruct (descriptor_needs_top_level_manifest StoredZip.loadAsync after_example
              nested_upload entries) as ((fs & events & Hh & _ & Hnames) & _).
  - reflexivity.
  - exact Hload.
  - rewrite Hentries. reflexivity.
  - rewrite Hentries. intros fileName zipEntry Hin Hd.
    simpl in Hin. destruct Hin as [E|[E|[E|[E|[]]]]]; injection E as <- <-;
      discriminate.
  - exists fs, events. split; [exact Hh|]. rewrite Hnames, Hentries. reflexivity.
Defined.

(** C9.  An upload whose archive holds exactly the members [manifest.json]
    and [popup.html] of the example gives the descriptor of the example and
    a list of two entries, both text. *)
Theorem example_archive_unpacks
    (loadAsync : list byte -> option (list (jsstring * ZipEntry)))
    (st : AnalyzerState) (file : File) (entries : list (jsstring * ZipEntry)) :
  accepted_name (file_name file) = true ->
  loadAsync (zipData_of file) = Some entries ->
  Permutation example_archive entries ->
  exists fs events,
    handleFileUpload loadAsync st (Some file)
    = ({| files := fs; manifest := example_descriptor;
          selectedFile := None; isProcessing := false |}, events) /\
    length fs = 2%nat /\
    Forall (fun f => isText f = true) fs /\
    toasts_of events = [ExtensionExtraida 2].
Proof.
  intros Hacc Hload Hperm.
  destruct (unpack_events loadAsync file) as (_ & Htoasts & _).
  apply Permutation_length_2_inv in Hperm.
  destruct Hperm as [-> | ->].
  - assert (Hs : snd (unpack loadAsync file)
                 = Some ([ member_file (js "manifest.json") (bytes manifest_json);
                           member_file (js "popup.html") (bytes popup_html) ],
                         example_descriptor)).
    { rewrite (unpack_loaded loadAsync file _ Hload). vm_compute. reflexivity. }
    eexists. eexists. split; [apply (handle_success loadAsync st file _ _ Hacc Hs)|].
    split; [reflexivity|]. split.
    + repeat constructor.
    + unfold toasts_of in *. rewrite flat_map_app, Htoasts. reflexivity.
  - assert (Hs : snd (unpack loadAsync file)
                 = Some ([ member_file (js "popup.html") (bytes popup_html);
                           member_file (js "manifest.json") (bytes manifest_json) ],
                         example_descriptor)).
    { rewrite (unpack_loaded loadAsync file _ Hload). vm_compute. reflexivity. }
    eexists. eexists. split; [apply (handle_success loadAsync st file _ _ Hacc Hs)|].
    split; [reflexivity|]. split.
    + repeat constructor.
    + unfold toasts_of in *. rewrite flat_map_app, Htoasts. reflexivity.
Qed.

Lemma example_archive_unpacks_witness :
  (accepted_name (file_name example_upload) = true /\
   StoredZip.loadAsync (zipData_of example_upload) = Some example_archive) /\
  exists fs events,
    handleFileUpload StoredZip.loadAsync initialState (Some example_upload)
    = ({| files := fs; manifest := example_descriptor;
          selectedFile := None; isProcessing := false |}, events) /\
    length fs = 2%nat /\
    Forall (fun f => isText f = true) fs.
Proof.
  assert (Hload : StoredZip.loadAsync (zipData_of example_upload) = Some example_archive)
    by (vm_compute; reflexivity).
  split; [split; [reflexivity | exact Hload]|].
  destruct (example_archive_unpacks StoredZip.loadAsync initialState example_upload
              example_archive eq_refl Hload (Permutation_refl _))
    as (fs & events & Hh & Hlen & Htext & _).
  exists fs, events. repeat split; assumption.
Defined.

(** ** Replacement of the current package *)




(** ** Object URLs of the preview *)

Lemma create_then_revoke (blob : Blob) (w : UrlStore) :
  (forall e, In e (live w) -> (fst e < next_url w)%nat) ->
  live (revokeObjectURL (fst (createObjectURL blob w)) (snd (createObjectURL blob w)))
  = live w.
Proof.
  intros Hfresh. unfold revokeObjectURL, createObjectURL. simpl.
  rewrite filter_app. simpl. rewrite Nat.eqb_refl. simpl. rewrite app_nil_r.
  apply forallb_filter_id. apply forallb_forall. intros e He.
  apply negb_true_iff, Nat.eqb_neq. specialize (Hfresh e He). lia.
Qed.

(** A download leaves no URL behind. *)
Lemma downloadFile_balanced (file : ExtensionFile) (w : UrlStore) :
  (forall e, In e (live w) -> (fst e < next_url w)%nat) ->
  live (downloadFile file w) = live w.
Proof.
  intros Hfresh. unfold downloadFile.
  apply (create_then_revoke (FileBlob (content file) (isText file)) w Hfresh).
Qed.

(** The sibling path: from a screen with no preview, "Ejecutar" followed by
    any number of "Recargar" keeps exactly one URL live, because
    [refreshExtension] revokes the current URL before it runs the
    extension. *)
Lemma refresh_keeps_one_url (n : nat) :
  exists url blob,
    Runner.clicks (Runner.Ejecutar :: repeat Runner.Recargar n)
                  (Runner.loaded example_data, emptyStore)
    = ({| Runner.extensionData := Some example_data;
          Runner.isRunning := false;
          Runner.extensionUrl := Some url |},
       {| live := [(url, blob)]; next_url := S url |}).
Proof.
  induction n as [|n IH].
  - eexists. eexists. vm_compute. reflexivity.
  - destruct IH as (url & blob & IH).
    replace (Runner.Ejecutar :: repeat Runner.Recargar (S n))
      with ((Runner.Ejecutar :: repeat Runner.Recargar n) ++ [Runner.Recargar]).
    + unfold Runner.clicks in *. rewrite fold_left_app, IH. simpl.
      unfold Runner.refreshExtension, Runner.runExtension, revokeObjectURL. simpl.
      rewrite Nat.eqb_refl. simpl. eexists. eexists. reflexivity.
    + simpl. f_equal. clear. induction n as [|n IH]; simpl; [reflexivity|].
      now rewrite IH.
Qed.

(** C8 fails on [runExtension]: the "Ejecutar" button calls it directly, and
    it creates a URL without revoking the one in [extensionUrl].  After two
    clicks two URLs are live, the first of which the screen no longer
    refers to. *)
Lemma run_twice_leaves_two_live_urls :
  let '(st, w) := Runner.clicks [Runner.Ejecutar; Runner.Ejecutar]
                                (Runner.loaded example_data, emptyStore) in
  map fst (live w) = [0%nat; 1%nat] /\ Runner.extensionUrl st = Some 1%nat.
Proof. vm_compute. split; reflexivity. Qed.

Lemma clicks_cons (c : Runner.Click) (cs : list Runner.Click)
    (sw : Runner.State * UrlStore) :
  Runner.clicks (c :: cs) sw = Runner.clicks cs (Runner.click c sw).
Proof. reflexivity. Qed.

(** Each further click on "Ejecutar" adds a live URL. *)
Lemma run_accumulates_urls (n : nat) :
  length (live (snd (Runner.clicks (repeat Runner.Ejecutar n)
                                   (Runner.loaded example_data, emptyStore)))) = n.
Proof.
  assert (H : forall n st w,
             Runner.extensionData st = Some example_data ->
             length (live (snd (Runner.clicks (repeat Runner.Ejecutar n) (st, w))))
             = (length (live w) + n)%nat).
  { clear n. induction n as [|n IH]; intros st w Hd.
    - simpl. lia.
    - cbn [repeat]. rewrite clicks_cons.
      assert (Hstep : exists blob,
                 Runner.click Runner.Ejecutar (st, w)
                 = ({| Runner.extensionData := Some example_data;
                       Runner.isRunning := false;
                       Runner.extensionUrl := Some (next_url w) |},
                    {| live := live w ++ [(next_url w, blob)];
                       next_url := S (next_url w) |})).
      { unfold Runner.click, Runner.runExtension. simpl. rewrite Hd. simpl.
        eexists. reflexivity. }
      destruct Hstep as [blob ->]. rewrite IH by reflexivity.
      simpl. rewrite length_app. simpl. lia. }
  rewrite (H n (Runner.loaded example_data) emptyStore eq_refl). reflexivity.
Qed.

(** ** Adequacy of the library models *)

(** *** Text decoding *)

Lemma utf8_join_length (buf : list byte) : forall c c_len,
  (length (snd (utf8_join c c_len buf)) <= length buf)%nat.
Proof.
  induction buf as [|b rest IH]; intros c c_len; simpl; [lia|].
  destruct (1 <? c_len); simpl; [|lia].
  specialize (IH (js_or (js_shl c 6) (js_and (byte_val b) 63)) (c_len - 1)). lia.
Qed.

Lemma buf2string_loop_nil (fuel : nat) : buf2string_loop fuel [] = [].
Proof. destruct fuel; reflexivity. Qed.

(** The decoder does not depend on its fuel once there is one unit per
    byte: [buf2string] never stops for lack of it. *)
Lemma buf2string_loop_fuel (fuel1 : nat) : forall fuel2 buf,
  (length buf <= fuel1)%nat -> (length buf <= fuel2)%nat ->
  buf2string_loop fuel1 buf = buf2string_loop fuel2 buf.
Proof.
  induction fuel1 as [|fuel1 IH]; intros fuel2 buf H1 H2.
  - destruct buf; [|simpl in H1; lia]. now rewrite !buf2string_loop_nil.
  - destruct buf as [|b rest]; [now rewrite !buf2string_loop_nil|].
    destruct fuel2 as [|fuel2]; [simpl in H2; lia|].
    simpl in H1, H2. cbn [buf2string_loop].
    destruct (byte_val b <? 128).
    + f_equal. apply IH; lia.
    + destruct (4 <? utf8len (byte_val b)).
      * f_equal. apply IH; rewrite length_skipn; lia.
      * pose proof (utf8_join_length rest
                      (js_and (byte_val b)
                         (if utf8len (byte_val b) =? 2 then 31
                          else if utf8len (byte_val b) =? 3 then 15 else 7))
                      (utf8len (byte_val b))) as Hlen.
        destruct (utf8_join _ _ rest) as [[c' c_len'] rest']. simpl in Hlen.
        assert (E : buf2string_loop fuel1 rest' = buf2string_loop fuel2 rest')
          by (apply IH; lia).
        rewrite E. reflexivity.
Qed.

(** ASCII text is decoded byte for byte, so the [length] of the text is the
    number of bytes of the member. *)
Lemma buf2string_ascii (raw : list byte) :
  Forall (fun b => byte_val b < 128) raw ->
  buf2string raw = map byte_val raw.
Proof.
  unfold buf2string. induction 1 as [|b rest Hb _ IH]; [reflexivity|].
  cbn [length buf2string_loop map].
  destruct (Z.ltb_spec (byte_val b) 128); [|lia]. now rewrite IH.
Qed.

Lemma ascii_text_size (fileName : jsstring) (raw : list byte) :
  Forall (fun b => byte_val b < 128) raw ->
  size (member_file fileName raw) = Z.of_nat (length raw).
Proof.
  intros H. unfold member_file, member_content. simpl.
  destruct (is_text_name fileName).
  - rewrite content_size_text, (buf2string_ascii raw H), length_map. reflexivity.
  - apply content_size_binary.
Qed.

(** *** [JSON.parse] *)

Lemma skip_ws_length (s : jsstring) : (length (skip_ws s) <= length s)%nat.
Proof.
  induction s as [|c r IH]; simpl; [lia|].
  destruct (is_ws c); simpl; lia.
Qed.

Lemma parse_chars_consumes_bounded (n : nat) : forall s acc str rest,
  (length s <= n)%nat ->
  parse_chars acc s = Parsed str rest -> (length rest < length s)%nat.
Proof.
  induction n as [|n IH]; intros s acc str rest Hn H;
    (destruct s as [|c r]; [discriminate|]); simpl in Hn; [lia|].
  simpl in H.
  destruct (c =? 34).
  { injection H as _ <-. simpl. lia. }
  destruct (c =? 92).
  - destruct r as [|e r']; [discriminate|].
    destruct (e =? 117).
    + destruct r' as [|h1 [|h2 [|h3 [|h4 r'']]]]; try discriminate.
      destruct (hex4 h1 h2 h3 h4); [|discriminate].
      apply IH in H; simpl in *; lia.
    + destruct (escape e); [|discriminate].
      apply IH in H; simpl in *; lia.
  - destruct (c <? 32); [discriminate|].
    apply IH in H; simpl in *; lia.
Qed.

Lemma parse_chars_consumes (s : jsstring) acc str rest :
  parse_chars acc s = Parsed str rest -> (length rest < length s)%nat.
Proof. apply (parse_chars_consumes_bounded (length s)). lia. Qed.

Lemma parse_chars_fuel_bounded (n : nat) : forall s acc,
  (length s <= n)%nat -> parse_chars acc s <> OutOfFuel.
Proof.
  induction n as [|n IH]; intros s acc Hn;
    (destruct s as [|c r]; [discriminate|]); simpl in Hn; [lia|].
  simpl.
  destruct (c =? 34); [discriminate|].
  destruct (c =? 92).
  - destruct r as [|e r']; [discriminate|].
    destruct (e =? 117).
    + destruct r' as [|h1 [|h2 [|h3 [|h4 r'']]]]; try discriminate.
      destruct (hex4 h1 h2 h3 h4); [|discriminate].
      apply IH. simpl in *. lia.
    + destruct (escape e); [|discriminate]. apply IH. simpl in *. lia.
  - destruct (c <? 32); [discriminate|]. apply IH. lia.
Qed.

Lemma parse_chars_fuel (s : jsstring) acc : parse_chars acc s <> OutOfFuel.
Proof. apply (parse_chars_fuel_bounded (length s)). lia. Qed.

Lemma digits_rest (s : jsstring) : forall acc n m k rest,
  digits acc n s = (m, k, rest) ->
  (length rest <= length s)%nat /\ k = n + Z.of_nat (length s) - Z.of_nat (length rest).
Proof.
  induction s as [|c r IH]; intros acc n m k rest H; simpl in H.
  - injection H as _ <- <-. simpl. split; lia.
  - destruct (is_digit c).
    + apply IH in H. simpl length. lia.
    + injection H as _ <- <-. simpl. split; lia.
Qed.

Lemma strip_prefix_length (prefix : jsstring) : forall s rest,
  strip_prefix prefix s = Some rest -> (length rest <= length s)%nat.
Proof.
  induction prefix as [|p prefix IH]; intros s rest H; simpl in H.
  - injection H as <-. lia.
  - destruct s as [|c r]; [discriminate|].
    destruct (p =? c); [|discriminate]. apply IH in H. simpl. lia.
Qed.

Lemma parse_number_fuel (s : jsstring) : parse_number s <> OutOfFuel.
Proof.
  unfold parse_number.
  repeat match goal with
         | |- context [match ?x with _ => _ end] => destruct x
         | |- context [if ?x then _ else _] => destruct x
         end; discriminate.
Qed.

Lemma parse_number_consumes (s : jsstring) v rest :
  parse_number s = Parsed v rest -> (length rest < length s)%nat.
Proof.
  unfold parse_number.
  set (sign := match s with
               | c :: r => if c =? 45 then (true, r) else (false, s)
               | [] => (false, s)
               end).
  assert (Hsign : (length (snd sign) <= length s)%nat).
  { subst sign. destruct s as [|c r]; simpl; [lia|].
    destruct (c =? 45); simpl; lia. }
  destruct sign as [neg s1]. simpl in Hsign.
  destruct s1 as [|c r]; [discriminate|].
  destruct (is_digit c) eqn:Hc; [|discriminate]. simpl negb. cbv iota.
  set (int := if c =? 48 then (0, 1, r) else digits 0 0 (c :: r)).
  assert (Hint : (length (snd int) <= length r)%nat).
  { subst int. destruct (c =? 48); simpl; [lia|].
    rewrite Hc. destruct (digits _ _ r) as [[m k] rest0] eqn:E.
    apply digits_rest in E. simpl. lia. }
  destruct int as [[i k] s2]. simpl in Hint. simpl in Hsign.
  set (frac := match s2 with
               | p :: r2 =>
                   if p =? 46 then
                     match digits i 0 r2 with
                     | (m, n, s3) => if n =? 0 then None else Some (m, n, s3)
                     end
                   else Some (i, 0, s2)
               | [] => Some (i, 0, s2)
               end).
  assert (Hfrac : forall m n s3, frac = Some (m, n, s3) ->
                                 (length s3 <= length s2)%nat).
  { subst frac. intros m n s3 H. destruct s2 as [|p r2].
    - injection H as _ _ <-. lia.
    - destruct (p =? 46).
      + destruct (digits i 0 r2) as [[m' n'] s3'] eqn:E.
        apply digits_rest in E. destruct (n' =? 0); [discriminate|].
        injection H as _ _ <-. simpl. lia.
      + injection H as _ _ <-. lia. }
  destruct frac as [[[m nfrac] s3]|]; [|discriminate].
  specialize (Hfrac m nfrac s3 eq_refl).
  intros H. destruct s3 as [|e r3].
  - injection H as _ <-. simpl in *. lia.
  - destruct ((e =? 101) || (e =? 69)).
    + set (esign := match r3 with
                    | g :: r4 =>
                        if g =? 45 then (true, r4)
                        else if g =? 43 then (false, r4) else (false, r3)
                    | [] => (false, r3)
                    end) in H.
      assert (Hes : (length (snd esign) <= length r3)%nat).
      { subst esign. destruct r3 as [|g r4]; simpl; [lia|].
        destruct (g =? 45); simpl; [lia|]. destruct (g =? 43); simpl; lia. }
      destruct esign as [eneg s4]. simpl in Hes.
      destruct (digits 0 0 s4) as [[x n] s5] eqn:E. apply digits_rest in E.
      destruct (n =? 0); [discriminate|]. injection H as _ <-.
      simpl in *. lia.
    + injection H as _ <-. simpl in *. lia.
Qed.

(** Every successful parse consumes at least one code unit. *)
Lemma parse_consumes (fuel : nat) :
  (forall s v rest,
      parse_value fuel s = Parsed v rest -> (length rest < length s)%nat) /\
  (forall acc s v rest,
      parse_elements fuel acc s = Parsed v rest -> (length rest < length s)%nat) /\
  (forall acc s v rest,
      parse_members fuel acc s = Parsed v rest -> (length rest < length s)%nat).
Proof.
  induction fuel as [|fuel (IHv & IHe & IHm)].
  - repeat split; intros; discriminate.
  - split; [|split].
    + intros s v rest H. cbn [parse_value] in H.
      pose proof (skip_ws_length s) as Hws.
      destruct (skip_ws s) as [|c r]; [discriminate|]. simpl in Hws.
      destruct (c =? 123).
      { pose proof (skip_ws_length r) as Hws'.
        destruct (skip_ws r) as [|c' r']; [discriminate|]. simpl in Hws'.
        destruct (c' =? 125).
        - injection H as _ <-. lia.
        - apply IHm in H. simpl in H. lia. }
      destruct (c =? 91).
      { pose proof (skip_ws_length r) as Hws'.
        destruct (skip_ws r) as [|c' r']; [discriminate|]. simpl in Hws'.
        destruct (c' =? 93).
        - injection H as _ <-. lia.
        - apply IHe in H. simpl in H. lia. }
      destruct (c =? 34).
      { destruct (parse_chars [] r) as [str rest'| |] eqn:E; try discriminate.
        apply parse_chars_consumes in E. injection H as _ <-. lia. }
      destruct (c =? 116).
      { destruct (strip_prefix (js "rue") r) as [rest'|] eqn:E; [|discriminate].
        apply strip_prefix_length in E. injection H as _ <-. lia. }
      destruct (c =? 102).
      { destruct (strip_prefix (js "alse") r) as [rest'|] eqn:E; [|discriminate].
        apply strip_prefix_length in E. injection H as _ <-. lia. }
      destruct (c =? 110).
      { destruct (strip_prefix (js "ull") r) as [rest'|] eqn:E; [|discriminate].
        apply strip_prefix_length in E. injection H as _ <-. lia. }
      apply parse_number_consumes in H. simpl in H. lia.
    + intros acc s v rest H. cbn [parse_elements] in H.
      destruct (parse_value fuel s) as [v0 rest0| |] eqn:E; try discriminate.
      apply IHv in E. pose proof (skip_ws_length rest0) as Hws.
      destruct (skip_ws rest0) as [|c r]; [discriminate|]. simpl in Hws.
      destruct (c =? 44).
      * apply IHe in H. lia.
      * destruct (c =? 93); [|discriminate]. injection H as _ <-. lia.
    + intros acc s v rest H. cbn [parse_members] in H.
      pose proof (skip_ws_length s) as Hws.
      destruct (skip_ws s) as [|q r]; [discriminate|]. simpl in Hws.
      destruct (negb (q =? 34)); [discriminate|].
      destruct (parse_chars [] r) as [key rest0| |] eqn:Ek; try discriminate.
      apply parse_chars_consumes in Ek.
      pose proof (skip_ws_length rest0) as Hws0.
      destruct (skip_ws rest0) as [|c r1]; [discriminate|]. simpl in Hws0.
      destruct (negb (c =? 58)); [discriminate|].
      destruct (parse_value fuel r1) as [v0 rest2| |] eqn:Ev; try discriminate.
      apply IHv in Ev. pose proof (skip_ws_length rest2) as Hws2.
      destruct (skip_ws rest2) as [|d r2]; [discriminate|]. simpl in Hws2.
      destruct (d =? 44).
      * apply IHm in H. lia.
      * destruct (d =? 125); [|discriminate]. injection H as _ <-. lia.
Qed.

(** Two units of fuel per code unit are enough at every level of the
    parser. *)
Lemma parse_fuel (fuel : nat) :
  (forall s, (2 * length s + 1 <= fuel)%nat -> parse_value fuel s <> OutOfFuel) /\
  (forall acc s, (2 * length s + 2 <= fuel)%nat ->
                 parse_elements fuel acc s <> OutOfFuel) /\
  (forall acc s, (2 * length s + 2 <= fuel)%nat ->
                 parse_members fuel acc s <> OutOfFuel).
Proof.
  induction fuel as [|fuel (IHv & IHe & IHm)].
  - repeat split; intros; lia.
  - split; [|split].
    + intros s Hf. cbn [parse_value].
      pose proof (skip_ws_length s) as Hws.
      destruct (skip_ws s) as [|c r]; [discriminate|]. simpl in Hws.
      destruct (c =? 123).
      { pose proof (skip_ws_length r) as Hws'.
        destruct (skip_ws r) as [|c' r']; [discriminate|]. simpl in Hws'.
        destruct (c' =? 125); [discriminate|]. apply IHm. simpl. lia. }
      destruct (c =? 91).
      { pose proof (skip_ws_length r) as Hws'.
        destruct (skip_ws r) as [|c' r']; [discriminate|]. simpl in Hws'.
        destruct (c' =? 93); [discriminate|]. apply IHe. simpl. lia. }
      destruct (c =? 34).
      { pose proof (parse_chars_fuel r []) as Hc.
        destruct (parse_chars [] r); [discriminate | discriminate | contradiction]. }
      destruct (c =? 116); [destruct (strip_prefix _ r); discriminate|].
      destruct (c =? 102); [destruct (strip_prefix _ r); discriminate|].
      destruct (c =? 110); [destruct (strip_prefix _ r); discriminate|].
      apply parse_number_fuel.
    + intros acc s Hf. cbn [parse_elements].
      pose proof (IHv s) as Hv.
      destruct (parse_value fuel s) as [v0 rest0| |] eqn:E;
        [|discriminate|apply Hv; lia].
      apply (proj1 (parse_consumes fuel)) in E.
      pose proof (skip_ws_length rest0) as Hws.
      destruct (skip_ws rest0) as [|c r]; [discriminate|]. simpl in Hws.
      destruct (c =? 44).
      * apply IHe. lia.
      * destruct (c =? 93); discriminate.
    + intros acc s Hf. cbn [parse_members].
      pose proof (skip_ws_length s) as Hws.
      destruct (skip_ws s) as [|q r]; [discriminate|]. simpl in Hws.
      destruct (negb (q =? 34)); [discriminate|].
      pose proof (parse_chars_fuel r []) as Hc.
      destruct (parse_chars [] r) as [key rest0| |] eqn:Ek;
        [|discriminate|contradiction].
      apply parse_chars_consumes in Ek.
      pose proof (skip_ws_length rest0) as Hws0.
      destruct (skip_ws rest0) as [|c r1]; [discriminate|]. simpl in Hws0.
      destruct (negb (c =? 58)); [discriminate|].
      pose proof (IHv r1) as Hv.
      destruct (parse_value fuel r1) as [v0 rest2| |] eqn:Ev;
        [|discriminate|apply Hv; lia].
      apply (proj1 (parse_consumes fuel)) in Ev.
      pose proof (skip_ws_length rest2) as Hws2.
      destruct (skip_ws rest2) as [|d r2]; [discriminate|]. simpl in Hws2.
      destruct (d =? 44).
      * apply IHm. lia.
      * destruct (d =? 125); discriminate.
Qed.

(** [JSON_parse] never stops for lack of fuel: [None] is a syntax error. *)
Lemma JSON_parse_fuel (text : jsstring) :
  parse_value (json_fuel text) text <> OutOfFuel.
Proof.
  apply (proj1 (parse_fuel (json_fuel text))). unfold json_fuel. lia.
Qed.

Lemma JSON_parse_None (text : jsstring) :
  JSON_parse text = None <->
  parse_value (json_fuel text) text = SyntaxError \/
  exists v rest, parse_value (json_fuel text) text = Parsed v rest /\ skip_ws rest <> [].
Proof.
  unfold JSON_parse. pose proof (JSON_parse_fuel text) as Hf.
  destruct (parse_value (json_fuel text) text) as [v rest| |]; [| |contradiction].
  - destruct (skip_ws rest) eqn:E; split.
    + discriminate.
    + intros [H | (v' & rest' & H & Hne)]; [discriminate|].
      injection H as <- <-. contradiction.
    + intros _. right. exists v, rest. split; [reflexivity | now rewrite E].
    + reflexivity.
  - split; [now left | reflexivity].
Qed.

(** * Further properties of the code *)

(** ** The header of a signed package *)

(** X1.  Each length field lies in the signed 32-bit range; it is the
    unsigned little-endian value of its four bytes when the top bit of the
    last byte is clear, and that value minus 2^32 when it is set.  The
    archive start therefore lies between 16 - 2^32 and 14 + 2^32. *)
Theorem header_lengths_are_signed (view : list byte) :
  publicKeyLength view
  = (if view_at view 15 <? 128 then le32u view 12 else le32u view 12 - 2 ^ 32) /\
  signatureLength view
  = (if view_at view 19 <? 128 then le32u view 16 else le32u view 16 - 2 ^ 32) /\
  - 2 ^ 31 <= publicKeyLength view < 2 ^ 31 /\
  - 2 ^ 31 <= signatureLength view < 2 ^ 31 /\
  16 - 2 ^ 32 <= zipStartOffset view <= 14 + 2 ^ 32.
Proof.
  assert (H : forall i,
             read_length view i
             = (if view_at view (i + 3) <? 128 then le32u view i
                else le32u view i - 2 ^ 32) /\
             - 2 ^ 31 <= read_length view i < 2 ^ 31).
  { intros i. rewrite read_length_le32. split; [|apply to_int32_range].
    unfold le32u.
    pose proof (view_at_range view i). pose proof (view_at_range view (i + 1)).
    pose proof (view_at_range view (i + 2)). pose proof (view_at_range view (i + 3)).
    destruct (Z.ltb_spec (view_at view (i + 3)) 128).
    - apply to_int32_small. lia.
    - unfold to_int32.
      match goal with
      | |- (?x + 2 ^ 31) mod 2 ^ 32 - 2 ^ 31 = _ =>
          replace (x + 2 ^ 31) with (x - 2 ^ 32 + 2 ^ 31 + 1 * 2 ^ 32) by lia
      end.
      rewrite Z.mod_add by lia. rewrite Z.mod_small by lia. lia. }
  destruct (H 12%nat) as [HP HPr]. destruct (H 16%nat) as [HS HSr].
  unfold publicKeyLength, signatureLength, zipStartOffset, headerSize.
  change (12 + 3)%nat with 15%nat in HP. change (16 + 3)%nat with 19%nat in HS.
  repeat split; try assumption; try lia; unfold publicKeyLength, signatureLength; lia.
Qed.

(** X2.  Whatever the name and the header, the payload handed to the archive
    library is a suffix of the uploaded buffer: nothing is reordered or
    added, and its length is the buffer's length minus the clamped start. *)
Theorem payload_is_a_suffix (file : File) :
  exists front,
    file_bytes file = front ++ zipData_of file /\
    (length front
     = if endsWith (file_name file) (js ".crx")
       then Z.to_nat (slice_start (Z.of_nat (length (file_bytes file)))
                                  (zipStartOffset (file_bytes file)))
       else O).
Proof.
  unfold zipData_of. destruct (endsWith (file_name file) (js ".crx")).
  - unfold crx_zipData, ArrayBuffer_slice.
    set (n := Z.to_nat (slice_start (Z.of_nat (length (file_bytes file)))
                                    (zipStartOffset (file_bytes file)))).
    exists (firstn n (file_bytes file)). split.
    + symmetry. apply firstn_skipn.
    + apply firstn_length_le. subst n.
      pose proof (slice_start_range (Z.of_nat (length (file_bytes file)))
                    (zipStartOffset (file_bytes file))). lia.
  - exists []. split; reflexivity.
Qed.

Lemma view_at_past_end (view : list byte) (i : nat) :
  (length view <= i)%nat -> view_at view i = 0.
Proof.
  intros H. unfold view_at.
  now rewrite (proj2 (nth_error_None view i) H).
Qed.

(** X3.  A [.crx] buffer too short to hold the last byte of the first length
    field (at most 15 bytes, the empty buffer included) is read with zeros
    for the missing bytes: the first length is not negative, the second is
    0, and the payload is empty. *)
Theorem short_header_gives_empty_payload (file : File) :
  endsWith (file_name file) (js ".crx") = true ->
  (length (file_bytes file) <= 15)%nat ->
  0 <= publicKeyLength (file_bytes file) < 2 ^ 24 /\
  signatureLength (file_bytes file) = 0 /\
  zipData_of file = [].
Proof.
  intros Hcrx Hlen.
  destruct (header_lengths_are_signed (file_bytes file)) as (HP & HS & _).
  set (buf := file_bytes file) in *.
  assert (H15 : view_at buf 15 = 0) by (apply view_at_past_end; lia).
  assert (H16 : view_at buf 16 = 0) by (apply view_at_past_end; lia).
  assert (H17 : view_at buf 17 = 0) by (apply view_at_past_end; lia).
  assert (H18 : view_at buf 18 = 0) by (apply view_at_past_end; lia).
  assert (H19 : view_at buf 19 = 0) by (apply view_at_past_end; lia).
  rewrite H15 in HP. rewrite H19 in HS. simpl in HP, HS.
  unfold le32u in HP, HS.
  change (12 + 1)%nat with 13%nat in HP. change (12 + 2)%nat with 14%nat in HP.
  change (12 + 3)%nat with 15%nat in HP.
  change (16 + 1)%nat with 17%nat in HS. change (16 + 2)%nat with 18%nat in HS.
  change (16 + 3)%nat with 19%nat in HS.
  rewrite H15 in HP. rewrite H16, H17, H18, H19 in HS.
  pose proof (view_at_range buf 12). pose proof (view_at_range buf 13).
  pose proof (view_at_range buf 14).
  assert (HPr : 0 <= publicKeyLength buf < 2 ^ 24) by lia.
  assert (HS0 : signatureLength buf = 0) by lia.
  split; [exact HPr|]. split; [exact HS0|].
  unfold zipData_of. rewrite Hcrx. unfold crx_zipData.
  apply ArrayBuffer_slice_beyond.
  unfold zipStartOffset, headerSize. fold buf. lia.
Qed.

Lemma short_header_gives_empty_payload_witness :
  (endsWith (file_name tiny_crx) (js ".crx") = true /\
   (length (file_bytes tiny_crx) <= 15)%nat) /\
  zipData_of tiny_crx = [].
Proof.
  assert (Hlen : (length (file_bytes tiny_crx) <= 15)%nat) by (vm_compute; lia).
  split; [split; [reflexivity | exact Hlen]|].
  apply (short_header_gives_empty_payload tiny_crx eq_refl Hlen).
Defined.

(** ** What an upload shows and leaves *)

(** X4.  An upload shows exactly one toast: the validation message when the
    name is not accepted, the success message with the number of files now
    in the state when unpacking succeeds, the generic error otherwise.  The
    archive library is called once for an accepted name and never for
    another; the events do not depend on the state found. *)
Theorem upload_shows_one_toast
    (loadAsync : list byte -> option (list (jsstring * ZipEntry)))
    (st : AnalyzerState) (file : File) :
  toasts_of (snd (handleFileUpload loadAsync st (Some file)))
  = [ if accepted_name (file_name file)
      then if unpack_succeeds loadAsync file
           then ExtensionExtraida
                  (length (files (fst (handleFileUpload loadAsync st (Some file)))))
           else ErrorProcesar
      else ArchivoNoValido ] /\
  loads_of (snd (handleFileUpload loadAsync st (Some file)))
  = (if accepted_name (file_name file) then [zipData_of file] else []) /\
  snd (handleFileUpload loadAsync st (Some file))
  = snd (handleFileUpload loadAsync initialState (Some file)).
Proof.
  destruct (unpack_events loadAsync file) as (Hloads & Htoasts & _).
  destruct (accepted_name (file_name file)) eqn:Hacc.
  - unfold unpack_succeeds.
    destruct (snd (unpack loadAsync file)) as [[fs m]|] eqn:Hs.
    + rewrite !(handle_success loadAsync _ file fs m Hacc Hs). simpl.
      unfold toasts_of, loads_of in *. rewrite !flat_map_app, Htoasts, Hloads.
      repeat split.
    + rewrite !(handle_failure loadAsync _ file Hacc Hs). simpl.
      unfold toasts_of, loads_of in *. rewrite !flat_map_app, Htoasts, Hloads.
      repeat split.
  - rewrite !(handle_rejected loadAsync _ file Hacc). repeat split.
Qed.

(** X5.  Uploading the same file again changes nothing more: the state after
    the second upload is the state after the first. *)
Theorem upload_is_idempotent
    (loadAsync : list byte -> option (list (jsstring * ZipEntry)))
    (st : AnalyzerState) (file : File) :
  fst (handleFileUpload loadAsync
         (fst (handleFileUpload loadAsync st (Some file))) (Some file))
  = fst (handleFileUpload loadAsync st (Some file)).
Proof.
  destruct (accepted_name (file_name file)) eqn:Hacc.
  - destruct (snd (unpack loadAsync file)) as [[fs m]|] eqn:Hs.
    + now rewrite !(handle_success loadAsync _ file fs m Hacc Hs).
    + now rewrite !(handle_failure loadAsync _ file Hacc Hs).
  - now rewrite !(handle_rejected loadAsync _ file Hacc).
Qed.

(** ** The entries of a successful unpack *)

Lemma extract_entries_built entries : forall fs m log fs' m',
  extract_entries entries (fs, m) = (log, Some (fs', m')) ->
  exists added, fs' = fs ++ added /\ Forall2 built_from added (members entries).
Proof.
  induction entries as [|[fileName zipEntry] entries IH]; intros fs m log fs' m' H.
  - simpl in H. unfold ret in H. injection H as _ <- _.
    exists []. rewrite app_nil_r. split; [reflexivity | constructor].
  - cbn [extract_entries] in H. unfold members. simpl.
    destruct (dir zipEntry) eqn:Hd; simpl.
    + rewrite extract_entry_dir in H by exact Hd. unfold bind, ret in H.
      destruct (extract_entries entries (fs, m)) as [log0 r] eqn:E.
      simpl in H. injection H as _ ->. eapply IH; eassumption.
    + destruct (data zipEntry) as [raw|] eqn:Hraw.
      * rewrite (extract_entry_member fs m fileName zipEntry raw Hd Hraw) in H.
        unfold bind in H.
        destruct (extract_entries entries _) as [log0 r] eqn:E.
        injection H as _ ->. apply IH in E. destruct E as (added & -> & Hadded).
        exists (member_file fileName raw :: added). rewrite <- app_assoc.
        split; [reflexivity|]. constructor; [|exact Hadded].
        exists raw. split; [exact Hraw | reflexivity].
      * rewrite extract_entry_rejected in H by assumption. discriminate.
Qed.

Lemma unpack_built
    (loadAsync : list byte -> option (list (jsstring * ZipEntry)))
    (file : File) fs m :
  snd (unpack loadAsync file) = Some (fs, m) ->
  exists entries,
    loadAsync (zipData_of file) = Some entries /\
    Forall2 built_from fs (members entries).
Proof.
  intros H. destruct (loadAsync (zipData_of file)) as [entries|] eqn:E.
  - exists entries. split; [reflexivity|].
    rewrite (unpack_loaded loadAsync file entries E) in H. simpl in H.
    destruct (extract_entries entries ([], JNull)) as [log r] eqn:Hx.
    simpl in H. subst r. apply extract_entries_built in Hx.
    destruct Hx as (added & -> & Hadded). exact Hadded.
  - rewrite (unpack_rejected loadAsync file E) in H. discriminate.
Qed.

Lemma utf8_join_progress (buf : list byte) : forall c c_len,
  (length (snd (utf8_join c c_len buf)) < length buf)%nat \/
  fst (fst (utf8_join c c_len buf)) = c.
Proof.
  destruct buf as [|b rest]; intros c c_len; simpl; [now right|].
  destruct (1 <? c_len); [|now right]. left.
  pose proof (utf8_join_length rest
                (js_or (js_shl c 6) (js_and (byte_val b) 63)) (c_len - 1)). lia.
Qed.

Lemma masked_lead_is_small (b : byte) :
  ((js_and (byte_val b)
      (if utf8len (byte_val b) =? 2 then 31
       else if utf8len (byte_val b) =? 3 then 15 else 7)) <? 65536) = true.
Proof. destruct b; vm_compute; reflexivity. Qed.

(** The decoder produces at most one code unit per byte. *)
Lemma buf2string_loop_length (fuel : nat) : forall buf,
  (length (buf2string_loop fuel buf) <= length buf)%nat.
Proof.
  induction fuel as [|fuel IH]; intros buf; [simpl; lia|].
  destruct buf as [|b rest]; [simpl; lia|]. cbn [buf2string_loop].
  destruct (byte_val b <? 128).
  { simpl. specialize (IH rest). lia. }
  destruct (4 <? utf8len (byte_val b)).
  { simpl. specialize (IH (skipn (Z.to_nat (utf8len (byte_val b) - 1)) rest)).
    rewrite length_skipn in IH. lia. }
  pose proof (masked_lead_is_small b) as Hsmall.
  set (c0 := js_and (byte_val b)
               (if utf8len (byte_val b) =? 2 then 31
                else if utf8len (byte_val b) =? 3 then 15 else 7)) in *.
  pose proof (utf8_join_length rest c0 (utf8len (byte_val b))) as Hlen.
  pose proof (utf8_join_progress rest c0 (utf8len (byte_val b))) as Hprog.
  destruct (utf8_join c0 (utf8len (byte_val b)) rest) as [[c' c_len'] rest'].
  simpl in Hlen, Hprog. specialize (IH rest').
  destruct (1 <? c_len'); [simpl; lia|].
  destruct (c' <? 65536) eqn:Hc; [simpl; lia|].
  destruct Hprog as [Hprog | Hprog]; [simpl; lia|].
  subst c'. congruence.
Qed.

(** X6.  For every entry of a successful unpack, [size] is the length of its
    content as the entry holds it, code units for a text and bytes for a
    buffer (0 for an empty member); it is never more than the number of
    bytes of the member, and equals it for a binary member and for an ASCII
    text. *)
Theorem entry_size_is_content_length
    (loadAsync : list byte -> option (list (jsstring * ZipEntry)))
    (file : File) (fs : list ExtensionFile) (m : json) (f : ExtensionFile) :
  snd (unpack loadAsync file) = Some (fs, m) ->
  In f fs ->
  size f = content_units (content f) /\
  exists entries fileName zipEntry raw,
    loadAsync (zipData_of file) = Some entries /\
    In (fileName, zipEntry) entries /\ dir zipEntry = false /\
    data zipEntry = Some raw /\ name f = fileName /\
    0 <= size f <= Z.of_nat (length raw) /\
    (isText f = false -> size f = Z.of_nat (length raw)) /\
    (Forall (fun b => byte_val b < 128) raw -> size f = Z.of_nat (length raw)).
Proof.
  intros Hs Hin. apply unpack_built in Hs. destruct Hs as (entries & Hload & Hfs).
  destruct (Forall2_In_l _ _ _ _ Hfs Hin) as ([fileName zipEntry] & Hmem & raw & Hraw & ->).
  simpl in Hraw. simpl fst.
  assert (Hsize : size (member_file fileName raw)
                  = content_units (content (member_file fileName raw))).
  { unfold member_file, member_content. simpl.
    destruct (is_text_name fileName);
      [apply content_size_text | apply content_size_binary]. }
  split; [exact Hsize|].
  unfold members in Hmem. apply filter_In in Hmem. destruct Hmem as [Hmem Hd].
  simpl in Hd. apply negb_true_iff in Hd.
  exists entries, fileName, zipEntry, raw.
  repeat split; try assumption.
  - rewrite Hsize. unfold content_units. destruct (content _); lia.
  - rewrite Hsize. unfold member_file, member_content. simpl.
    destruct (is_text_name fileName); simpl; [|lia].
    pose proof (buf2string_loop_length (length raw) raw). unfold buf2string. lia.
  - unfold member_file. simpl. intros Ht. unfold member_content. rewrite Ht.
    apply content_size_binary.
  - intros Hascii. now apply ascii_text_size.
Qed.

Lemma entry_size_is_content_length_witness :
  exists fs m f,
    snd (unpack StoredZip.loadAsync accent_upload) = Some (fs, m) /\
    In f fs /\ size f = 1 /\ content f = Text [233].
Proof.
  destruct (snd (unpack StoredZip.loadAsync accent_upload)) as [[fs m]|] eqn:Hs;
    [|vm_compute in Hs; discriminate].
  pose (f := member_file (js "a.txt") (bytes [195; 169])).
  assert (Hin : In f fs).
  { vm_compute in Hs. injection Hs as <- _. left. vm_compute. reflexivity. }
  exists fs, m, f. split; [reflexivity|]. split; [exact Hin|].
  destruct (entry_size_is_content_length StoredZip.loadAsync accent_upload fs m f Hs Hin)
    as [Hsize _].
  split; [rewrite Hsize|]; vm_compute; reflexivity.
Defined.

(** X7.  The paths of the entries are pairwise distinct, as the keys of the
    loaded archive are. *)
Theorem entry_paths_are_unique
    (loadAsync : list byte -> option (list (jsstring * ZipEntry)))
    (file : File) (entries : list (jsstring * ZipEntry))
    (fs : list ExtensionFile) (m : json) :
  loadAsync (zipData_of file) = Some entries ->
  NoDup (map fst entries) ->
  snd (unpack loadAsync file) = Some (fs, m) ->
  NoDup (map name fs) /\ (length fs <= length entries)%nat.
Proof.
  intros Hload Hnd Hs. apply unpack_success_inv in Hs.
  destruct Hs as (entries' & Hload' & _ & Hfs & _).
  assert (entries' = entries) by congruence. subst entries'.
  pose proof (Forall2_names _ _ Hfs) as Hnames. split.
  - rewrite Hnames. unfold members. clear -Hnd.
    induction entries as [|[k v] entries IH]; [constructor|].
    simpl in Hnd. inversion Hnd as [|? ? Hnotin Hnd']; subst. simpl.
    destruct (negb (dir v)); simpl; [|now apply IH].
    constructor; [|now apply IH].
    intros Hin. apply Hnotin. apply in_map_iff in Hin.
    destruct Hin as (e & He & Hin). apply filter_In in Hin.
    rewrite <- He. apply in_map. tauto.
  - rewrite <- (length_map name), Hnames, length_map. unfold members.
    apply filter_length_le.
Qed.

Lemma entry_paths_are_unique_witness :
  exists fs m,
    snd (unpack StoredZip.loadAsync nested_upload) = Some (fs, m) /\
    NoDup (map name fs).
Proof.
  destruct (StoredZip.loadAsync (zipData_of nested_upload)) as [entries|] eqn:Hload;
    [|vm_compute in Hload; discriminate].
  destruct (snd (unpack StoredZip.loadAsync nested_upload)) as [[fs m]|] eqn:Hs;
    [|vm_compute in Hs; discriminate].
  exists fs, m. split; [reflexivity|].
  apply (entry_paths_are_unique StoredZip.loadAsync nested_upload entries fs m Hload);
    [|exact Hs].
  vm_compute in Hload. injection Hload as <-. vm_compute.
  repeat constructor; simpl; intuition discriminate.
Defined.

(** ** The descriptor *)





(** ** From the analyzer to the runner *)

Lemma endsWith_fold_case (s : jsstring) (ext : string) :
  map fold_case (js ext) = js ext ->
  endsWith s (js ext) = true -> endsWith (map fold_case s) (js ext) = true.
Proof.
  intros Hext H. apply endsWith_spec in H. destruct H as [front ->].
  apply endsWith_spec. exists (map fold_case front). now rewrite map_app, Hext.
Qed.

Lemma isText_depends_on_path_only_aux
    (loadAsync : list byte -> option (list (jsstring * ZipEntry)))
    (file : File) (fs : list ExtensionFile) (m : json) (f : ExtensionFile) :
  snd (unpack loadAsync file) = Some (fs, m) ->
  In f fs ->
  isText f = is_text_name (name f) /\
  exists raw, content f = if isText f then Text (buf2string raw) else Binary raw.
Proof.
  intros Hs Hin. apply unpack_built in Hs. destruct Hs as (entries & _ & Hfs).
  destruct (Forall2_In_l _ _ _ _ Hfs Hin) as ([fileName zipEntry] & _ & raw & _ & ->).
  simpl. split; [reflexivity|]. exists raw. unfold member_content.
  destruct (is_text_name fileName); reflexivity.
Qed.

(** X9.  A path that ends in [.html], in lower case, is a text path; so for
    an entry of a successful unpack the runner's test for an HTML file,
    which also asks for [isText], is decided by the path alone. *)
Theorem html_entries_are_text
    (loadAsync : list byte -> option (list (jsstring * ZipEntry)))
    (file : File) (fs : list ExtensionFile) (m : json) (f : ExtensionFile) :
  snd (unpack loadAsync file) = Some (fs, m) ->
  In f fs ->
  Runner.is_html f = endsWith (name f) (js ".html") /\
  (Runner.is_html f = true -> exists raw, content f = Text (buf2string raw)).
Proof.
  intros Hs Hin.
  destruct (isText_depends_on_path_only_aux loadAsync file fs m f Hs Hin)
    as (Htext & raw & Hcontent).
  unfold Runner.is_html.
  destruct (endsWith (name f) (js ".html")) eqn:Hhtml; simpl.
  - assert (Ht : isText f = true).
    { rewrite Htext. apply is_text_name_spec. exists ".html"%string. split.
      - simpl. tauto.
      - now apply endsWith_fold_case. }
    rewrite Ht. split; [reflexivity|]. intros _. exists raw.
    now rewrite Ht in Hcontent.
  - split; [reflexivity | discriminate].
Qed.

Lemma html_entries_are_text_witness :
  exists fs m f,
    snd (unpack StoredZip.loadAsync example_upload) = Some (fs, m) /\
    In f fs /\ name f = js "popup.html" /\ Runner.is_html f = true.
Proof.
  destruct (snd (unpack StoredZip.loadAsync example_upload)) as [[fs m]|] eqn:Hs;
    [|vm_compute in Hs; discriminate].
  pose (f := member_file (js "popup.html") (bytes popup_html)).
  assert (Hin : In f fs).
  { vm_compute in Hs. injection Hs as <- _. right. left. vm_compute. reflexivity. }
  exists fs, m, f. split; [reflexivity|]. split; [exact Hin|].
  split; [reflexivity|].
  destruct (html_entries_are_text StoredZip.loadAsync example_upload fs m f Hs Hin)
    as [Hhtml _].
  rewrite Hhtml. reflexivity.
Defined.

(** ** The URL registry *)

Lemma fresh_empty : fresh_store emptyStore.
Proof. split; [constructor | intros e []]. Qed.

Lemma fresh_create (blob : Blob) (w : UrlStore) :
  fresh_store w -> fresh_store (snd (createObjectURL blob w)).
Proof.
  intros [Hnd Hlt]. unfold fresh_store, createObjectURL. simpl. split.
  - rewrite map_app. simpl. apply NoDup_app; [exact Hnd | repeat constructor; intros [] |].
    intros u Hu [<- | []]. apply in_map_iff in Hu. destruct Hu as (e & He & Hin).
    specialize (Hlt e Hin). lia.
  - intros e He. apply in_app_or in He. destruct He as [He | [<- | []]].
    + specialize (Hlt e He). lia.
    + simpl. lia.
Qed.

Lemma NoDup_map_filter {A B : Type} (g : A -> B) (p : A -> bool) (l : list A) :
  NoDup (map g l) -> NoDup (map g (filter p l)).
Proof.
  induction l as [|a l IH]; intros H; [constructor|].
  simpl in H. inversion H as [|? ? Hnotin Hnd]; subst. simpl.
  destruct (p a); simpl; [|now apply IH].
  constructor; [|now apply IH].
  intros Hin. apply Hnotin. apply in_map_iff in Hin.
  destruct Hin as (x & Hx & Hin). apply filter_In in Hin.
  rewrite <- Hx. apply in_map. tauto.
Qed.

Lemma fresh_revoke (url : nat) (w : UrlStore) :
  fresh_store w -> fresh_store (revokeObjectURL url w).
Proof.
  intros [Hnd Hlt]. unfold fresh_store, revokeObjectURL. simpl. split.
  - now apply NoDup_map_filter.
  - intros e He. apply filter_In in He. now apply Hlt.
Qed.

(** Revoking a live URL removes it and nothing else. *)
Lemma revoke_live (url : nat) (w : UrlStore) :
  fresh_store w -> In url (map fst (live w)) ->
  S (length (live (revokeObjectURL url w))) = length (live w) /\
  ~ In url (map fst (live (revokeObjectURL url w))).
Proof.
  intros [Hnd _] Hin. unfold revokeObjectURL. simpl. split.
  - induction (live w) as [|[u b] l IH]; [contradiction|].
    simpl in Hnd. inversion Hnd as [|? ? Hnotin Hnd']; subst. simpl.
    destruct (Nat.eqb_spec u url) as [-> | Hne]; simpl.
    + rewrite forallb_filter_id; [reflexivity|].
      apply forallb_forall. intros e He.
      apply negb_true_iff, Nat.eqb_neq. intros E. apply Hnotin.
      rewrite <- E. now apply in_map.
    + f_equal. apply IH; [exact Hnd'|]. destruct Hin as [E | Hin]; [|exact Hin].
      simpl in E. contradiction.
  - intros H. apply in_map_iff in H. destruct H as (e & He & H).
    apply filter_In in H. destruct H as [_ H].
    apply negb_true_iff, Nat.eqb_neq in H. contradiction.
Qed.

Lemma revoke_absent (url : nat) (w : UrlStore) :
  ~ In url (map fst (live w)) -> live (revokeObjectURL url w) = live w.
Proof.
  intros Hnot. unfold revokeObjectURL. simpl.
  apply forallb_filter_id. apply forallb_forall. intros e He.
  apply negb_true_iff, Nat.eqb_neq. intros E. apply Hnot.
  rewrite <- E. now apply in_map.
Qed.

(** ** The runner *)

(** X10.  [runExtension] never revokes: the URLs live before the call are
    all live after it, in the same order, followed by at most one new URL; a
    new URL is created exactly when the screen has extension data that is
    runnable, and it becomes [extensionUrl]. *)
Theorem runExtension_only_adds (st : Runner.State) (w : UrlStore) :
  let '(st', w', toasts) := Runner.runExtension st w in
  Runner.extensionData st' = Runner.extensionData st /\
  match Runner.extensionData st with
  | Some d =>
      if runnable d
      then exists blob,
             live w' = live w ++ [(next_url w, blob)] /\
             next_url w' = S (next_url w) /\
             Runner.extensionUrl st' = Some (next_url w) /\
             Runner.isRunning st' = false /\
             (toasts = [Runner.ExtensionCargada] \/
              toasts = [Runner.MostrandoInformacion])
      else w' = w /\ Runner.extensionUrl st' = Runner.extensionUrl st /\
           Runner.isRunning st' = false /\ toasts = [Runner.ErrorEjecutar]
  | None => st' = st /\ w' = w /\ toasts = []
  end.
Proof.
  unfold Runner.runExtension, runnable.
  destruct (Runner.extensionData st) as [d|] eqn:Hd.
  - destruct (find Runner.is_html (Runner.files d)) as [htmlFile|].
    + simpl. split; [reflexivity|]. eexists.
      split; [reflexivity|]. split; [reflexivity|]. split; [reflexivity|].
      split; [reflexivity|]. now left.
    + destruct (Runner.manifest d); simpl; (split; [reflexivity|]);
        try (split; [reflexivity|]; split; [reflexivity|];
             split; reflexivity);
        (eexists; split; [reflexivity|]; split; [reflexivity|];
         split; [reflexivity|]; split; [reflexivity|]; now right).
  - simpl. split; [exact Hd|]. split; [reflexivity|]. split; reflexivity.
Qed.

Lemma run_runnable (st : Runner.State) (w : UrlStore) (d : Runner.ExtensionData) :
  Runner.extensionData st = Some d -> runnable d = true ->
  exists blob,
    fst (Runner.runExtension st w)
    = ({| Runner.extensionData := Some d; Runner.isRunning := false;
          Runner.extensionUrl := Some (next_url w) |},
       {| live := live w ++ [(next_url w, blob)]; next_url := S (next_url w) |}).
Proof.
  intros Hd Hrun. unfold Runner.runExtension, runnable in *. rewrite Hd.
  destruct (find Runner.is_html (Runner.files d)) as [htmlFile|].
  - simpl. eexists. reflexivity.
  - destruct (Runner.manifest d); try discriminate; simpl; eexists; reflexivity.
Qed.


Lemma click_previewing (d : Runner.ExtensionData) (c : Runner.Click)
    (sw : Runner.State * UrlStore) :
  runnable d = true -> previewing d sw ->
  previewing d (Runner.click c sw) /\
  length (live (snd (Runner.click c sw)))
  = (length (live (snd sw)) + if is_run c then 1 else 0)%nat.
Proof.
  intros Hrun (Hd & Hfresh & url & Hurl & Hlive). destruct sw as [st w].
  simpl in *. destruct c; simpl.
  - destruct (run_runnable st w d Hd Hrun) as [blob ->]. simpl. split.
    + split; [reflexivity|]. split.
      * apply (fresh_create blob w Hfresh).
      * exists (next_url w). split; [reflexivity|]. simpl.
        rewrite map_app. apply in_or_app. right. now left.
    + rewrite length_app. reflexivity.
  - unfold Runner.refreshExtension. rewrite Hurl.
    destruct (run_runnable st (revokeObjectURL url w) d Hd Hrun) as [blob ->].
    destruct (revoke_live url w Hfresh Hlive) as [Hlen _]. simpl. split.
    + split; [reflexivity|]. split.
      * apply (fresh_create blob (revokeObjectURL url w)).
        now apply fresh_revoke.
      * exists (next_url w). split; [reflexivity|]. simpl.
        rewrite map_app. apply in_or_app. right. now left.
    + rewrite length_app. simpl in *. lia.
Qed.

Lemma clicks_previewing (d : Runner.ExtensionData) (cs : list Runner.Click) :
  runnable d = true -> forall sw,
  previewing d sw ->
  previewing d (Runner.clicks cs sw) /\
  length (live (snd (Runner.clicks cs sw)))
  = (length (live (snd sw)) + length (filter is_run cs))%nat.
Proof.
  intros Hrun. induction cs as [|c cs IH]; intros sw Hp.
  - simpl. split; [exact Hp | lia].
  - rewrite clicks_cons.
    destruct (click_previewing d c sw Hrun Hp) as [Hp' Hlen'].
    destruct (IH _ Hp') as [Hp'' Hlen'']. split; [exact Hp''|].
    rewrite Hlen'', Hlen'. simpl. destruct (is_run c); simpl; lia.
Qed.

(** X11.  For runnable data, starting with no preview, the first click of
    either button creates the preview, and from then on every click on
    "Ejecutar" leaves one more URL live while a click on "Recargar" leaves
    the number as it is: after the clicks [c :: cs] the number of live URLs
    is one plus the number of "Ejecutar" in [cs], and the URL of the screen
    is one of them. *)
Theorem live_urls_count_runs (d : Runner.ExtensionData) (c : Runner.Click)
    (cs : list Runner.Click) :
  runnable d = true ->
  length (live (snd (Runner.clicks (c :: cs) (Runner.loaded d, emptyStore))))
  = S (length (filter is_run cs)) /\
  exists url,
    Runner.extensionUrl (fst (Runner.clicks (c :: cs) (Runner.loaded d, emptyStore)))
    = Some url /\
    In url (map fst (live (snd (Runner.clicks (c :: cs) (Runner.loaded d, emptyStore))))).
Proof.
  intros Hrun. rewrite clicks_cons.
  assert (Hfirst : exists blob,
             Runner.click c (Runner.loaded d, emptyStore)
             = ({| Runner.extensionData := Some d; Runner.isRunning := false;
                   Runner.extensionUrl := Some O |},
                {| live := [(O, blob)]; next_url := 1 |})).
  { destruct c; simpl; unfold Runner.refreshExtension; simpl;
      destruct (run_runnable (Runner.loaded d) emptyStore d eq_refl Hrun) as [blob ->];
      exists blob; reflexivity. }
  destruct Hfirst as [blob ->].
  assert (Hp : previewing d
                 ({| Runner.extensionData := Some d; Runner.isRunning := false;
                     Runner.extensionUrl := Some O |},
                  {| live := [(O, blob)]; next_url := 1 |})).
  { split; [reflexivity|]. split.
    - split; [repeat constructor; intros [] |].
      intros e [<- | []]. simpl. lia.
    - exists O. split; [reflexivity | now left]. }
  destruct (clicks_previewing d cs Hrun _ Hp) as [(_ & _ & url & Hurl & Hin) Hlen].
  split; [rewrite Hlen; reflexivity|]. exists url. now split.
Qed.

Lemma live_urls_count_runs_witness :
  runnable example_data = true /\
  length (live (snd (Runner.clicks
                       [Runner.Ejecutar; Runner.Recargar; Runner.Ejecutar;
                        Runner.Recargar; Runner.Ejecutar]
                       (Runner.loaded example_data, emptyStore)))) = 3%nat.
Proof.
  split; [reflexivity|].
  apply (live_urls_count_runs example_data Runner.Ejecutar
           [Runner.Recargar; Runner.Ejecutar; Runner.Recargar; Runner.Ejecutar]
           eq_refl).
Defined.



(** X13.  The preview shows the first file, in the order of the list, whose
    name ends in [.html] and that is text, whatever the manifest is (also
    [null]) and whatever follows it. *)
Theorem run_previews_first_html (st : Runner.State) (w : UrlStore)
    (d : Runner.ExtensionData) (before after : list ExtensionFile)
    (htmlFile : ExtensionFile) :
  Runner.extensionData st = Some d ->
  Runner.files d = before ++ htmlFile :: after ->
  Forall (fun f => Runner.is_html f = false) before ->
  Runner.is_html htmlFile = true ->
  Runner.runExtension st w
  = ({| Runner.extensionData := Some d; Runner.isRunning := false;
        Runner.extensionUrl := Some (next_url w) |},
     {| live := live w ++ [(next_url w, HtmlBlob (content htmlFile))];
        next_url := S (next_url w) |},
     [Runner.ExtensionCargada]).
Proof.
  intros Hd Hfiles Hbefore Hhtml.
  assert (Hfind : find Runner.is_html (Runner.files d) = Some htmlFile).
  { rewrite Hfiles. clear Hfiles.
    induction Hbefore as [|f before Hf _ IH]; simpl.
    - now rewrite Hhtml.
    - now rewrite Hf. }
  unfold Runner.runExtension. rewrite Hd, Hfind. reflexivity.
Qed.

Lemma run_previews_first_html_witness :
  exists blob,
    live (snd (fst (Runner.runExtension (Runner.loaded two_pages_data) emptyStore)))
    = [(O, blob)] /\
    blob = HtmlBlob (Text (js "<p>options</p>")).
Proof.
  eexists. split; [|reflexivity].
  rewrite (run_previews_first_html (Runner.loaded two_pages_data) emptyStore
             two_pages_data
             [member_file (js "icon.png") (bytes [137; 80; 78; 71])]
             [member_file (js "popup.html") (bytes popup_html)]
             (member_file (js "options.html") (bytes (js "<p>options</p>")))).
  - vm_compute. reflexivity.
  - reflexivity.
  - reflexivity.
  - repeat constructor.
  - reflexivity.
Defined.

Lemma run_store (st : Runner.State) (w : UrlStore) :
  snd (fst (Runner.runExtension st w)) = w \/
  exists blob, snd (fst (Runner.runExtension st w)) = snd (createObjectURL blob w).
Proof.
  unfold Runner.runExtension.
  destruct (Runner.extensionData st) as [d|]; [|now left].
  destruct (find Runner.is_html (Runner.files d)) as [htmlFile|].
  - right. eexists. reflexivity.
  - destruct (Runner.manifest d); try (right; eexists; reflexivity). now left.
Qed.

Lemma click_fresh (c : Runner.Click) (sw : Runner.State * UrlStore) :
  fresh_store (snd sw) -> fresh_store (snd (Runner.click c sw)).
Proof.
  intros Hfresh. destruct sw as [st w]. simpl in *.
  assert (Hrun : forall st' w', fresh_store w' ->
                                fresh_store (snd (fst (Runner.runExtension st' w')))).
  { intros st' w' H. destruct (run_store st' w') as [-> | [blob ->]];
      [exact H | now apply fresh_create]. }
  destruct c; simpl.
  - now apply Hrun.
  - unfold Runner.refreshExtension. apply Hrun.
    destruct (Runner.extensionUrl st); [now apply fresh_revoke | exact Hfresh].
Qed.

Lemma clicks_fresh (cs : list Runner.Click) : forall sw,
  fresh_store (snd sw) -> fresh_store (snd (Runner.clicks cs sw)).
Proof.
  induction cs as [|c cs IH]; intros sw H; [exact H|].
  rewrite clicks_cons. apply IH. now apply click_fresh.
Qed.

Lemma download_fresh (file : ExtensionFile) (w : UrlStore) :
  fresh_store w ->
  live (downloadFile file w) = live w /\ fresh_store (downloadFile file w) /\
  next_url (downloadFile file w) = S (next_url w).
Proof.
  intros Hfresh. split; [apply downloadFile_balanced, Hfresh|]. split.
  - unfold downloadFile.
    apply (fresh_revoke (next_url w)
             (snd (createObjectURL (FileBlob (content file) (isText file)) w))).
    now apply fresh_create.
  - reflexivity.
Qed.

(** X14.  A download never touches the URLs of the preview: whatever was
    clicked on the runner screen before, for whatever data, the URLs live
    after [downloadFile] are those live before it, and the URL the download
    used is not among them. *)
Theorem download_leaves_previews (d : Runner.ExtensionData)
    (cs : list Runner.Click) (file : ExtensionFile) :
  live (downloadFile file (snd (Runner.clicks cs (Runner.loaded d, emptyStore))))
  = live (snd (Runner.clicks cs (Runner.loaded d, emptyStore))) /\
  ~ In (next_url (snd (Runner.clicks cs (Runner.loaded d, emptyStore))))
       (map fst (live (downloadFile file
                         (snd (Runner.clicks cs (Runner.loaded d, emptyStore)))))).
Proof.
  pose proof (clicks_fresh cs (Runner.loaded d, emptyStore) fresh_empty) as Hfresh.
  destruct (download_fresh file _ Hfresh) as (Hlive & _ & _).
  split; [exact Hlive|]. rewrite Hlive. intros Hin.
  apply in_map_iff in Hin. destruct Hin as (e & He & Hin).
  destruct Hfresh as [_ Hlt]. specialize (Hlt e Hin). lia.
Qed.

(** ** Actions on the analyzer screen *)








(** X17.  "Recargar" on a screen that shows a preview replaces it: the URL
    of the old preview is revoked, the new URL is the one of the screen and
    is live, and the number of live URLs is what it was. *)
Theorem refresh_replaces_preview (d : Runner.ExtensionData)
    (st : Runner.State) (w : UrlStore) (url : nat) :
  runnable d = true ->
  previewing d (st, w) ->
  Runner.extensionUrl st = Some url ->
  ~ In url (map fst (live (snd (fst (Runner.refreshExtension st w))))) /\
  Runner.extensionUrl (fst (fst (Runner.refreshExtension st w))) = Some (next_url w) /\
  In (next_url w) (map fst (live (snd (fst (Runner.refreshExtension st w))))) /\
  length (live (snd (fst (Runner.refreshExtension st w)))) = length (live w).
Proof.
  intros Hrun (Hd & Hfresh & url' & Hurl' & Hlive) Hurl. simpl in *.
  assert (url' = url) by congruence. subst url'.
  unfold Runner.refreshExtension. rewrite Hurl.
  destruct (run_runnable st (revokeObjectURL url w) d Hd Hrun) as [blob ->].
  destruct (revoke_live url w Hfresh Hlive) as [Hlen Hgone]. simpl in *.
  assert (Hlt : (url < next_url w)%nat).
  { apply in_map_iff in Hlive. destruct Hlive as (e & <- & Hin).
    destruct Hfresh as [_ Hlt]. now apply Hlt. }
  split.
  - rewrite map_app. intros Hin. apply in_app_or in Hin.
    destruct Hin as [Hin | [E | []]]; [now apply Hgone | simpl in E; lia].
  - split; [reflexivity|]. split.
    + rewrite map_app. apply in_or_app. right. now left.
    + rewrite length_app. simpl. lia.
Qed.

Lemma refresh_replaces_preview_witness :
  (runnable example_data = true /\
   Runner.extensionUrl
     (fst (Runner.clicks [Runner.Ejecutar; Runner.Ejecutar]
                         (Runner.loaded example_data, emptyStore))) = Some 1%nat) /\
  ~ In 1%nat
       (map fst
          (live (snd (fst (Runner.refreshExtension
                             (fst (Runner.clicks [Runner.Ejecutar; Runner.Ejecutar]
                                     (Runner.loaded example_data, emptyStore)))
                             (snd (Runner.clicks [Runner.Ejecutar; Runner.Ejecutar]
                                     (Runner.loaded example_data, emptyStore)))))))).
Proof.
  set (sw := Runner.clicks [Runner.Ejecutar; Runner.Ejecutar]
                           (Runner.loaded example_data, emptyStore)).
  assert (Hp : previewing example_data (fst sw, snd sw)).
  { split; [reflexivity|]. split.
    - apply (clicks_fresh [Runner.Ejecutar; Runner.Ejecutar]
               (Runner.loaded example_data, emptyStore) fresh_empty).
    - exists 1%nat. split; [reflexivity|]. vm_compute. tauto. }
  destruct (refresh_replaces_preview example_data (fst sw) (snd sw) 1%nat
              eq_refl Hp eq_refl) as [Hgone _].
  split; [split; reflexivity | exact Hgone].
Defined.
